(** * Lennard-Jones energy evaluator ([mm_2019_sss_1/energy.py])

    A shallow embedding of the class [Energy] and of the numpy and Python
    primitives its four methods use, followed by the properties of the
    evaluator.

    Numbers.  The source computes on binary64 values.  They are idealised
    here as exact rationals ([Qc], canonical fractions, so that equality is
    Leibniz equality and every definition evaluates).  Rounding, overflow to
    [inf] and underflow to [0.0] of numpy values are not modelled.  A
    statement that gives the number a method returns therefore carries the
    range of its inputs in which binary64 neither overflows nor underflows;
    the other statements relate one call to another, or concern indices and
    empty selections, and do not depend on the arithmetic.

    Two events that change the control flow are kept.  A division by zero
    raises [ZeroDivisionError] on Python scalars and yields [inf] and, through
    [inf - inf], [nan] on numpy values; both are the outcome
    [Raise NumericFault].  Python's [**] on a float raises [OverflowError]
    when the power is out of range: the outcome [Raise OverflowError], which
    only the constructor can have.

    Effects.  Methods run in a state-and-exception monad over the evaluator
    object, so that "reads but never writes" is a theorem about the methods
    and not a consequence of their type. *)

From Stdlib Require Import ZArith QArith Qpower Qcanon List Bool Lia Lqa
  Permutation.
Import ListNotations.

Set Implicit Arguments.

(** ** Outcomes of a call *)

(** [ConfigurationError] is the error class the specification names for a
    rejected cutoff.  No path of the source raises it. *)
Inductive exn : Set :=
| IndexError
| NumericFault
| OverflowError
| ConfigurationError.

Inductive outcome (A : Type) : Type :=
| Ok (a : A)
| Raise (e : exn).

Arguments Ok {A} a.
Arguments Raise {A} e.

Definition obind {A B} (o : outcome A) (k : A -> outcome B) : outcome B :=
  match o with
  | Ok a => k a
  | Raise e => Raise e
  end.

Definition omap {A B} (f : A -> B) (o : outcome A) : outcome B :=
  obind o (fun a => Ok (f a)).

Fixpoint omapM {A B} (f : A -> outcome B) (l : list A) : outcome (list B) :=
  match l with
  | [] => Ok []
  | x :: l' => obind (f x) (fun y => obind (omapM f l') (fun ys => Ok (y :: ys)))
  end.

(** ** Numbers *)

Local Open Scope Qc_scope.

Definition num_eqb (x y : Qc) : bool := Qeq_bool x y.
Definition num_ltb (x y : Qc) : bool := negb (Qle_bool y x).

(** Integers and the numeric literals of the source: [4.0] is [Z2Qc 4]. *)
Definition Z2Qc (n : Z) : Qc := Q2Qc (inject_Z n).

(** Python's [a / b]. *)
Definition py_div (a b : Qc) : outcome Qc :=
  if num_eqb b 0 then Raise NumericFault else Ok (a / b).

(** [np.power(x, n)] for a literal natural exponent. *)
Definition np_power (x : Qc) (n : nat) : Qc := x ^ n.

(** [2 ** k] for an integer [k], negative ones included. *)
Definition pow2 (k : Z) : Qc := Q2Qc (2 ^ k)%Q.

(** What rounds to a finite binary64 number: a magnitude below
    [2^1024 - 2^970], half an ulp above the largest one. *)
Definition overflow_threshold : Qc := Z2Qc (2 ^ 1024 - 2 ^ 970).

Definition representable (x : Qc) : bool :=
  num_ltb (- overflow_threshold) x && num_ltb x overflow_threshold.

(** Python's [x ** n] on a float, for a literal natural exponent: it raises
    [OverflowError] where the power is out of range.  The range is decided
    here on the exact power; binary64 decides it on the rounded one. *)
Definition py_pow (x : Qc) (n : nat) : outcome Qc :=
  if representable (x ^ n) then Ok (x ^ n) else Raise OverflowError.

(** [np.pi] is the binary64 number 0x400921FB54442D18, a rational. *)
Definition np_pi : Qc := Q2Qc (884279719003555 # 281474976710656).

(** [a.sum()]; the sum of an empty array is 0.0.  numpy adds pairwise, which
    over exact numbers is the same sum. *)
Definition np_sum (a : list Qc) : Qc := fold_right Qcplus 0 a.

(** [a[a < c]]: boolean-mask selection, a fresh array. *)
Definition np_select_lt (a : list Qc) (c : Qc) : list Qc :=
  filter (fun r => num_ltb r c) a.

(** ** Indexing *)

(** An index [i] into a sequence of length [len]: Python and numpy accept
    [-len <= i < len], count a negative [i] from the end, and raise
    [IndexError] otherwise. *)
Definition normalize_index (len : nat) (i : Z) : outcome nat :=
  if ((i <? - Z.of_nat len) || (Z.of_nat len <=? i))%Z then Raise IndexError
  else if (i <? 0)%Z then Ok (Z.to_nat (i + Z.of_nat len))
  else Ok (Z.to_nat i).

(** [a[i]] *)
Definition getitem {A} (a : list A) (i : Z) : outcome A :=
  obind (normalize_index (length a) i) (fun n =>
  match nth_error a n with
  | Some x => Ok x
  | None => Raise IndexError
  end).

Fixpoint remove_at {A} (n : nat) (a : list A) {struct a} : list A :=
  match a, n with
  | [], _ => []
  | _ :: a', O => a'
  | x :: a', S n' => x :: remove_at n' a'
  end.

(** [np.delete(a, i)] for a scalar [i]: a fresh array without entry [i]. *)
Definition np_delete {A} (a : list A) (i : Z) : outcome (list A) :=
  obind (normalize_index (length a) i) (fun n => Ok (remove_at n a)).

(** ** The objects *)

Definition point : Set := (Qc * Qc * Qc)%type.

(** The Geometry collaborator, as far as the evaluator uses it: three
    attributes and one method.  Its class is not part of the evaluator; the
    method is a field here, so every statement below holds for every
    implementation of it. *)
Record Geometry : Type := mkGeometry {
  coordinates : list point;
  num_particles : Z;
  volume : Qc;
  minimum_image_distance : point -> list point -> list Qc
}.

Record Energy : Type := mkEnergy {
  Geom : Geometry;
  cutoff : Qc;
  cutoff2 : Qc
}.

(** ** The monad of methods *)

Definition M (A : Type) : Type := Energy -> outcome A * Energy.

Definition ret {A} (a : A) : M A := fun self => (Ok a, self).

Definition bind {A B} (m : M A) (k : A -> M B) : M B :=
  fun self =>
    match m self with
    | (Ok a, self') => k a self'
    | (Raise e, self') => (Raise e, self')
    end.

Definition lift {A} (o : outcome A) : M A := fun self => (o, self).

(** [self.f] read *)
Definition gets {A} (f : Energy -> A) : M A := fun self => (Ok (f self), self).

(** [self.f = v] writes *)
Definition set_Geom (g : Geometry) : M unit :=
  fun self => (Ok tt, mkEnergy g (cutoff self) (cutoff2 self)).
Definition set_cutoff (c : Qc) : M unit :=
  fun self => (Ok tt, mkEnergy (Geom self) c (cutoff2 self)).
Definition set_cutoff2 (c2 : Qc) : M unit :=
  fun self => (Ok tt, mkEnergy (Geom self) (cutoff self) c2).

Declare Scope method_scope.
Delimit Scope method_scope with method.
Notation "x <- m ;; k" := (bind m (fun x => k))
  (at level 61, m at next level, right associativity) : method_scope.
Notation "m ;;; k" := (bind m (fun _ => k))
  (at level 61, right associativity) : method_scope.
Local Open Scope method_scope.

(** A scalar method applied to an array: numpy evaluates it elementwise. *)
Fixpoint broadcast {A B} (f : A -> M B) (a : list A) : M (list B) :=
  match a with
  | [] => ret []
  | x :: a' => y <- f x ;; ys <- broadcast f a' ;; ret (y :: ys)
  end.

(** [for i in r: acc = body(acc, i)] *)
Fixpoint for_each {A B} (body : B -> A -> M B) (r : list A) (acc : B) : M B :=
  match r with
  | [] => ret acc
  | i :: r' => acc' <- body acc i ;; for_each body r' acc'
  end.

Definition eval {A} (m : M A) (self : Energy) : outcome A := fst (m self).
Definition exec {A} (m : M A) (self : Energy) : Energy := snd (m self).

(** ** class Energy *)

(** The object a constructor call allocates before [__init__] runs; its
    attributes are placeholders, all three are assigned by [__init__]. *)
Definition blank : Energy :=
  mkEnergy (mkGeometry [] 0 0 (fun _ _ => [])) 0 0.

Definition __init__ (Geom0 : Geometry) (cutoff0 : Qc) : M unit :=
  set_Geom Geom0 ;;;
  set_cutoff cutoff0 ;;;
  c <- gets cutoff ;;
  c2 <- lift (py_pow c 2) ;;
  set_cutoff2 c2.

(** [Energy(Geom, cutoff)] *)
Definition new_Energy (Geom0 : Geometry) (cutoff0 : Qc) : outcome Energy :=
  match __init__ Geom0 cutoff0 blank with
  | (Ok _, self) => Ok self
  | (Raise e, _) => Raise e
  end.

Definition lennard_jones_potential (rij2 : Qc) : M Qc :=
  inv <- lift (py_div 1 rij2) ;;
  let sig_by_r6 := np_power inv 3 in
  let sig_by_r12 := np_power sig_by_r6 2 in
  let LJ := Z2Qc 4 * (sig_by_r12 - sig_by_r6) in
  ret LJ.

Definition get_particle_energy (i_particle : Z) (coords : list point) : M Qc :=
  r_i <- lift (getitem coords i_particle) ;;
  g <- gets Geom ;;
  let rij2 := minimum_image_distance g r_i coords in
  red <- lift (np_delete rij2 i_particle) ;;
  c2 <- gets cutoff2 ;;
  pot <- broadcast lennard_jones_potential (np_select_lt red c2) ;;
  let e_total := np_sum pot in
  ret e_total.

Definition calculate_total_pair_energy : M Qc :=
  let e_total := 0 in
  g <- gets Geom ;;
  let particle_count := length (coordinates g) in
  e_total <- for_each
    (fun e_total i_particle =>
       g' <- gets Geom ;;
       e <- get_particle_energy (Z.of_nat i_particle) (coordinates g') ;;
       ret (e_total + e))
    (seq 0 particle_count) e_total ;;
  lift (py_div e_total (Z2Qc 2)).

Definition calculate_tail_correction : M Qc :=
  g <- gets Geom ;;
  let num_particles := Z2Qc (num_particles g) in
  c <- gets cutoff ;;
  inv <- lift (py_div 1 c) ;;
  let sig_by_cutoff3 := np_power inv 3 in
  let sig_by_cutoff9 := np_power sig_by_cutoff3 3 in
  let e_correction := sig_by_cutoff9 - Z2Qc 3 * sig_by_cutoff3 in
  k <- lift (py_div (Z2Qc 8) (Z2Qc 9)) ;;
  g' <- gets Geom ;;
  q <- lift (py_div (k * np_pi * num_particles) (volume g')) ;;
  let e_correction := e_correction * (q * num_particles) in
  ret e_correction.

(** ** Method calls and reachable states *)

Inductive call : Type :=
| call_lennard_jones_potential (rij2 : Qc)
| call_get_particle_energy (i_particle : Z) (coords : list point)
| call_calculate_total_pair_energy
| call_calculate_tail_correction.

Definition method (c : call) : M Qc :=
  match c with
  | call_lennard_jones_potential rij2 => lennard_jones_potential rij2
  | call_get_particle_energy i coords => get_particle_energy i coords
  | call_calculate_total_pair_energy => calculate_total_pair_energy
  | call_calculate_tail_correction => calculate_tail_correction
  end.

(** The states of an evaluator: the one its constructor leaves, and the one
    any method call leaves, whether the call returned or raised. *)
Inductive reachable (g : Geometry) (c : Qc) : Energy -> Prop :=
| reachable_new self :
    new_Energy g c = Ok self -> reachable g c self
| reachable_call self k :
    reachable g c self -> reachable g c (exec (method k) self).

Definition read_only {A} (m : M A) : Prop := forall self, exec m self = self.

(** ** What the specification says, in its own words *)

(** The contract of the collaborator's method: one squared distance per
    particle of the coordinate set it is given. *)
Definition distance_contract (g : Geometry) : Prop :=
  forall r cs, length (minimum_image_distance g r cs) = length cs.

Definition enumerate {A} (start : nat) (a : list A) : list (nat * A) :=
  combine (seq start (length a)) a.

(** The other particles [j] whose squared distance to particle [i] is
    strictly below the squared cutoff, each with that distance. *)
Definition neighbours_within (i : nat) (c2 : Qc) (rij2 : list Qc)
  : list (nat * Qc) :=
  filter (fun jr => negb (fst jr =? i)%nat && num_ltb (snd jr) c2)
         (enumerate 0 rij2).

(** Per-particle energy: the sum of the pair potential over those
    neighbours. *)
Definition particle_energy_spec (self : Energy) (i : nat) (r_i : point)
    (coords : list point) : outcome Qc :=
  let rij2 := minimum_image_distance (Geom self) r_i coords in
  omap np_sum
    (omapM (fun jr => eval (lennard_jones_potential (snd jr)) self)
           (neighbours_within i (cutoff2 self) rij2)).

(** The sum of a sequence of outcomes: the first fault wins. *)
Definition osum (l : list (outcome Qc)) : outcome Qc :=
  omap np_sum (omapM (fun o => o) l).

(** Total pair energy: per-particle energies summed over the indices
    [0 .. N-1], divided by two. *)
Definition total_pair_energy_spec (self : Energy) : outcome Qc :=
  let coords := coordinates (Geom self) in
  omap (fun e => e / Z2Qc 2)
       (osum (map (fun i => eval (get_particle_energy (Z.of_nat i) coords) self)
                  (seq 0 (length coords)))).

(** Pair potential, [4 * ((1/r2)^6 - (1/r2)^3)]. *)
Definition lennard_jones_spec (r2 : Qc) : outcome Qc :=
  obind (py_div 1 r2) (fun inv =>
  Ok (Z2Qc 4 * (np_power inv 6 - np_power inv 3))).

(** Tail correction, [(8/9) * pi * (N / V) * N * ((1/rc)^9 - 3 * (1/rc)^3)]. *)
Definition tail_correction_spec (N : Z) (V rc : Qc) : outcome Qc :=
  obind (py_div (Z2Qc 8) (Z2Qc 9)) (fun k =>
  obind (py_div (Z2Qc N) V) (fun density =>
  obind (py_div 1 rc) (fun inv =>
  Ok (k * np_pi * density * Z2Qc N * (inv ^ 9 - Z2Qc 3 * inv ^ 3))))).



(** ** Pure readings of the methods, for the proofs *)

(** The value of [lennard_jones_potential], which reads nothing of [self]. *)
Definition lj (rij2 : Qc) : outcome Qc :=
  obind (py_div 1 rij2) (fun inv => Ok (Z2Qc 4 * ((inv ^ 3) ^ 2 - inv ^ 3))).

(** The value of a [for_each] whose body only reads. *)
Fixpoint ofold {A B} (f : B -> A -> outcome B) (r : list A) (acc : B)
  : outcome B :=
  match r with
  | [] => Ok acc
  | i :: r' => obind (f acc i) (fun acc' => ofold f r' acc')
  end.

(** Two outcomes that carry the same fraction are the same outcome; this is
    how a computed result is compared with an expected one. *)
Definition outcome_eqb (o1 o2 : outcome Qc) : bool :=
  match o1, o2 with
  | Ok x, Ok y => num_eqb x y
  | Raise IndexError, Raise IndexError => true
  | Raise NumericFault, Raise NumericFault => true
  | Raise OverflowError, Raise OverflowError => true
  | Raise ConfigurationError, Raise ConfigurationError => true
  | _, _ => false
  end.

(** The number [lennard_jones_potential] returns where it returns one. *)
Definition lj_value (rij2 : Qc) : Qc :=
  Z2Qc 4 * (((1 / rij2) ^ 3) ^ 2 - (1 / rij2) ^ 3).

(** ** Distances and pairs inside one evaluator *)

(** The squared distance the collaborator reports from particle [i] to
    particle [j] of the evaluator's own coordinate set. *)
Definition distance_between (self : Energy) (i j : nat) : Qc :=
  let coords := coordinates (Geom self) in
  match nth_error coords i with
  | Some r_i => nth j (minimum_image_distance (Geom self) r_i coords) 0
  | None => 0
  end.

(** The potential summed once over every unordered pair [{j, i}], [j < i],
    whose squared distance is strictly below [cutoff2]. *)
Definition pair_sum (self : Energy) : Qc :=
  np_sum
    (map (fun i =>
            np_sum
              (map (fun j => lj_value (distance_between self i j))
                   (filter (fun j => num_ltb (distance_between self i j)
                                             (cutoff2 self))
                           (seq 0 i))))
         (seq 0 (length (coordinates (Geom self))))).

(** [f 0 + ... + f (n - 1)] *)
Definition sigma (n : nat) (f : nat -> Qc) : Qc := np_sum (map f (seq 0 n)).

(** The contribution of the ordered pair [(i, j)] to the energy of particle
    [i]: the potential at their distance if [j] is another particle within
    the cutoff, nothing otherwise. *)
Definition pair_term (self : Energy) (i j : nat) : Qc :=
  if (j =? i)%nat then 0
  else if num_ltb (distance_between self i j) (cutoff2 self)
       then lj_value (distance_between self i j)
       else 0.

(** ** An example collaborator and some configurations *)

Definition sq (x : Qc) : Qc := x * x.

Definition sq_distance (p q : point) : Qc :=
  let '(px, py, pz) := p in
  let '(qx, qy, qz) := q in
  sq (px - qx) + sq (py - qy) + sq (pz - qz).

(** A collaborator over an unbounded cell: the minimum image of a particle is
    the particle itself. *)
Definition open_geometry (cs : list point) (V : Qc) : Geometry :=
  mkGeometry cs (Z.of_nat (length cs)) V (fun r cs' => map (sq_distance r) cs').

Definition at_x (x : Z) : point := (Z2Qc x, 0, 0).

(** Two particles at distance 2, cutoff 3. *)
Definition pair_02 : list point := [at_x 0; at_x 2].
Definition box_02 : Geometry := open_geometry pair_02 (Z2Qc 1000).
Definition energy_02 : Energy := mkEnergy box_02 (Z2Qc 3) (Z2Qc 9).


(** Two particles at distance 3, the cutoff. *)
Definition pair_03 : list point := [at_x 0; at_x 3].
Definition energy_03 : Energy :=
  mkEnergy (open_geometry pair_03 (Z2Qc 1000)) (Z2Qc 3) (Z2Qc 9).

(** Other particles and another distance method, same count, volume and
    cutoff as [energy_02]. *)
Definition pair_05 : list point := [at_x 5; at_x 0].
Definition energy_05 : Energy :=
  mkEnergy (mkGeometry pair_05 2 (Z2Qc 1000) (fun _ cs => map (fun _ => 1) cs))
           (Z2Qc 3) (Z2Qc 9).

(** A collaborator that breaks the contract: it reports no distance. *)
Definition energy_mute : Energy :=
  mkEnergy (mkGeometry pair_02 2 (Z2Qc 1000) (fun _ _ => []))
           (Z2Qc 3) (Z2Qc 9).

(** Three particles, the last two at the same place. *)
Definition triple_022 : list point := [at_x 0; at_x 2; at_x 2].
Definition energy_022 : Energy :=
  mkEnergy (open_geometry triple_022 (Z2Qc 1000)) (Z2Qc 3) (Z2Qc 9).

(** A cell with one particle. *)
Definition energy_single : Energy :=
  mkEnergy (open_geometry [at_x 5] (Z2Qc 1000)) (Z2Qc 3) (Z2Qc 9).

(** Cells without particles, of volume 1 and 1000. *)
Definition empty_box : Geometry := open_geometry [] 1.
Definition energy_empty : Energy := mkEnergy empty_box (Z2Qc 3) (Z2Qc 9).

(** * Properties *)

(** ** Numbers *)

Lemma num_eqb_eq (x y : Qc) : num_eqb x y = true <-> x = y.
Proof.
  unfold num_eqb. rewrite Qeq_bool_iff. split.
  - apply Qc_is_canon.
  - intros ->. reflexivity.
Qed.

Lemma num_eqb_neq (x y : Qc) : num_eqb x y = false <-> x <> y.
Proof.
  rewrite <- num_eqb_eq. destruct (num_eqb x y); split; congruence.
Qed.

Lemma num_ltb_lt (x y : Qc) : num_ltb x y = true <-> x < y.
Proof.
  unfold num_ltb, Qclt. rewrite negb_true_iff.
  rewrite <- not_true_iff_false, Qle_bool_iff. split.
  - apply Qnot_le_lt.
  - apply Qlt_not_le.
Qed.

Lemma num_ltb_ge (x y : Qc) : num_ltb x y = false <-> y <= x.
Proof.
  unfold num_ltb, Qcle. rewrite negb_false_iff. apply Qle_bool_iff.
Qed.

Lemma py_div_ok (a b : Qc) : b <> 0 -> py_div a b = Ok (a / b).
Proof.
  intros Hb. unfold py_div. apply num_eqb_neq in Hb. now rewrite Hb.
Qed.

Lemma py_div_zero (a : Qc) : py_div a 0 = Raise NumericFault.
Proof. reflexivity. Qed.

Lemma Z2Qc_neq_0 (n : Z) : n <> 0%Z -> Z2Qc n <> 0.
Proof.
  intros Hn H. apply Hn. unfold Z2Qc in H.
  apply Q2Qc_eq_iff in H. unfold Qeq in H. simpl in H. lia.
Qed.

Lemma outcome_eqb_eq (o1 o2 : outcome Qc) : outcome_eqb o1 o2 = true -> o1 = o2.
Proof.
  destruct o1 as [x|[]], o2 as [y|[]]; simpl; try discriminate; try reflexivity.
  intros H. apply num_eqb_eq in H. now subst.
Qed.

Ltac by_evaluation := apply outcome_eqb_eq; vm_compute; reflexivity.

(** ** Order on the rationals *)

Lemma this_plus (x y : Qc) : (this (x + y) == this x + this y)%Q.
Proof. apply Qred_correct. Qed.

Lemma this_mult (x y : Qc) : (this (x * y) == this x * this y)%Q.
Proof. apply Qred_correct. Qed.

Lemma this_opp (x : Qc) : (this (- x) == - this x)%Q.
Proof. apply Qred_correct. Qed.

Lemma this_minus (x y : Qc) : (this (x - y) == this x - this y)%Q.
Proof. unfold Qcminus. now rewrite this_plus, this_opp. Qed.

Lemma this_inv (x : Qc) : (this (/ x) == / this x)%Q.
Proof. apply Qred_correct. Qed.

Lemma this_Z2Qc (n : Z) : (this (Z2Qc n) == inject_Z n)%Q.
Proof. apply Qred_correct. Qed.

Lemma this_inv_l (r : Qc) : r <> 0 -> (this (/ r) * this r == 1)%Q.
Proof.
  intros Hr. rewrite <- this_mult, (Qcmult_inv_l r Hr). reflexivity.
Qed.

(** Order goals on [Qc] are read on the underlying fractions. *)
Ltac to_Q :=
  unfold Qcle, Qclt, Qcminus in *;
  repeat rewrite ?this_plus, ?this_mult, ?this_opp, ?this_Z2Qc in *;
  change (this 0) with 0%Q in *; change (this 1) with 1%Q in *;
  unfold inject_Z in *.

Lemma Qcmult_pos (a b : Qc) : 0 < a -> 0 < b -> 0 < a * b.
Proof. intros Ha Hb. to_Q. nra. Qed.

Lemma Qcinv_pos (a : Qc) : 0 < a -> 0 < / a.
Proof.
  unfold Qclt. rewrite this_inv. apply Qinv_lt_0_compat.
Qed.

Lemma Qcsquare_nonneg (a : Qc) : 0 <= a * a.
Proof. to_Q. nra. Qed.

Lemma Qcpower3_pos (a : Qc) : 0 < a -> 0 < a ^ 3.
Proof.
  intros Ha. simpl. rewrite Qcmult_1_r. auto using Qcmult_pos.
Qed.

Lemma Qcpower3_lt_1 (a : Qc) : 0 < a -> a < 1 -> a ^ 3 < 1.
Proof.
  intros H0 H1. simpl. rewrite Qcmult_1_r.
  assert (Haa : 0 < a * a /\ a * a < 1) by (to_Q; nra).
  destruct Haa as [Haa0 Haa1]. to_Q. nra.
Qed.

Lemma Qcpower3_gt_1 (a : Qc) : 1 < a -> 1 < a ^ 3.
Proof.
  intros H1. simpl. rewrite Qcmult_1_r.
  assert (Haa : 1 < a * a) by (to_Q; nra).
  to_Q. nra.
Qed.

Lemma Qcinv_lt_1 (r : Qc) : 1 < r -> 0 < 1 / r /\ 1 / r < 1.
Proof.
  intros Hr.
  assert (Hne : r <> 0) by (intros ->; discriminate Hr).
  pose proof (this_inv_l Hne) as Hx.
  unfold Qcdiv. rewrite Qcmult_1_l. to_Q. nra.
Qed.

Lemma Qcinv_gt_1 (r : Qc) : 0 < r -> r < 1 -> 1 < 1 / r.
Proof.
  intros H0 H1.
  assert (Hne : r <> 0) by (intros ->; discriminate H0).
  pose proof (this_inv_l Hne) as Hx.
  unfold Qcdiv. rewrite Qcmult_1_l. to_Q. nra.
Qed.

(** ** Ranges *)

Lemma pow2_pos (k : Z) : 0 < pow2 k.
Proof.
  unfold Qclt, pow2. simpl this. rewrite Qred_correct.
  now apply Qpower_0_lt.
Qed.

Lemma above_pow2_nonzero (k : Z) (x : Qc) : pow2 k <= x -> x <> 0.
Proof.
  intros H ->. apply (Qclt_not_le _ _ (pow2_pos k)). exact H.
Qed.

Lemma pow2_500_square : pow2 500 * pow2 500 < overflow_threshold.
Proof. vm_compute. reflexivity. Qed.

Lemma square_power (c : Qc) : c ^ 2 = c * c.
Proof. simpl. now rewrite Qcmult_1_r. Qed.

Lemma representable_iff (x : Qc) :
  representable x = true
  <-> - overflow_threshold < x /\ x < overflow_threshold.
Proof.
  unfold representable. now rewrite andb_true_iff, !num_ltb_lt.
Qed.

Lemma representable_square_small (c : Qc) :
  - pow2 500 <= c -> c <= pow2 500 -> representable (c ^ 2) = true.
Proof.
  intros Hlo Hhi. rewrite square_power. apply representable_iff.
  pose proof pow2_500_square as HT.
  generalize dependent overflow_threshold. generalize dependent (pow2 500).
  intros A Hlo Hhi T HT. to_Q. nra.
Qed.

Lemma py_pow_ok (x : Qc) (n : nat) :
  representable (x ^ n) = true -> py_pow x n = Ok (x ^ n).
Proof. unfold py_pow. now intros ->. Qed.

Lemma py_pow_overflow (x : Qc) (n : nat) :
  representable (x ^ n) = false -> py_pow x n = Raise OverflowError.
Proof. unfold py_pow. now intros ->. Qed.

Lemma py_pow_fault (x : Qc) (n : nat) e :
  py_pow x n = Raise e -> e = OverflowError.
Proof. unfold py_pow. destruct (representable (x ^ n)); congruence. Qed.

(** ** The monad *)

Lemma read_only_ret {A} (a : A) : read_only (ret a).
Proof. intro; reflexivity. Qed.

Lemma read_only_lift {A} (o : outcome A) : read_only (lift o).
Proof. intro; reflexivity. Qed.

Lemma read_only_gets {A} (f : Energy -> A) : read_only (gets f).
Proof. intro; reflexivity. Qed.

Lemma read_only_bind {A B} (m : M A) (k : A -> M B) :
  read_only m -> (forall a, read_only (k a)) -> read_only (bind m k).
Proof.
  intros Hm Hk self. specialize (Hm self). unfold exec, bind in *.
  destruct (m self) as [[a|e] self']; simpl in *; subst.
  - apply Hk.
  - reflexivity.
Qed.

Lemma read_only_broadcast {A B} (f : A -> M B) (a : list A) :
  (forall x, read_only (f x)) -> read_only (broadcast f a).
Proof.
  intros Hf. induction a as [|x a IH]; simpl.
  - apply read_only_ret.
  - apply read_only_bind; [apply Hf | intros y].
    apply read_only_bind; [apply IH | intros ys]. apply read_only_ret.
Qed.

Lemma read_only_for_each {A B} (body : B -> A -> M B) (r : list A) :
  (forall acc i, read_only (body acc i)) ->
  forall acc, read_only (for_each body r acc).
Proof.
  intros Hb. induction r as [|i r IH]; intros acc; simpl.
  - apply read_only_ret.
  - apply read_only_bind; [apply Hb | apply IH].
Qed.

(** The monad does have writes, which the constructor uses; being read-only
    is a property of a method, not of the type [M]. *)
Lemma set_cutoff_writes : ~ read_only (set_cutoff 1).
Proof. intros H. specialize (H blank). discriminate H. Qed.

Create HintDb frame.
#[export] Hint Resolve read_only_ret read_only_lift read_only_gets : frame.

Ltac frame :=
  repeat first
    [ apply read_only_ret | apply read_only_lift | apply read_only_gets
    | apply read_only_broadcast; intros
    | apply read_only_for_each; intros
    | apply read_only_bind; intros
    | solve [auto with frame] ].

Lemma eval_ret {A} (a : A) self : eval (ret a) self = Ok a.
Proof. reflexivity. Qed.

Lemma eval_lift {A} (o : outcome A) self : eval (lift o) self = o.
Proof. reflexivity. Qed.

Lemma eval_gets {A} (f : Energy -> A) self : eval (gets f) self = Ok (f self).
Proof. reflexivity. Qed.

Lemma eval_bind {A B} (m : M A) (k : A -> M B) self :
  read_only m ->
  eval (bind m k) self = obind (eval m self) (fun a => eval (k a) self).
Proof.
  intros Hm. specialize (Hm self). unfold exec, eval, bind in *.
  destruct (m self) as [[a|e] self']; simpl in *; subst; reflexivity.
Qed.

Lemma eval_broadcast {A B} (f : A -> M B) (a : list A) self :
  (forall x, read_only (f x)) ->
  eval (broadcast f a) self = omapM (fun x => eval (f x) self) a.
Proof.
  intros Hf. induction a as [|x a IH]; simpl.
  - reflexivity.
  - rewrite eval_bind by apply Hf.
    destruct (eval (f x) self) as [y|e]; simpl; [|reflexivity].
    rewrite eval_bind by (apply read_only_broadcast, Hf).
    rewrite IH. reflexivity.
Qed.

(** ** The methods only read the object *)

Lemma lennard_jones_potential_read_only rij2 :
  read_only (lennard_jones_potential rij2).
Proof. unfold lennard_jones_potential. frame. Qed.

#[export] Hint Resolve lennard_jones_potential_read_only : frame.

Lemma get_particle_energy_read_only i coords :
  read_only (get_particle_energy i coords).
Proof. unfold get_particle_energy. frame. Qed.

#[export] Hint Resolve get_particle_energy_read_only : frame.

Lemma calculate_total_pair_energy_read_only :
  read_only calculate_total_pair_energy.
Proof. unfold calculate_total_pair_energy. frame. Qed.

Lemma calculate_tail_correction_read_only :
  read_only calculate_tail_correction.
Proof. unfold calculate_tail_correction. frame. Qed.

#[export] Hint Resolve calculate_total_pair_energy_read_only
  calculate_tail_correction_read_only : frame.

(** ** What the methods compute *)

Lemma eval_lennard_jones_potential rij2 self :
  eval (lennard_jones_potential rij2) self = lj rij2.
Proof.
  unfold lennard_jones_potential, lj.
  rewrite eval_bind by frame. rewrite eval_lift.
  destruct (py_div 1 rij2); reflexivity.
Qed.

Lemma omapM_ext {A B} (f g : A -> outcome B) l :
  (forall x, f x = g x) -> omapM f l = omapM g l.
Proof.
  intros H. induction l as [|x l IH]; simpl; [reflexivity|].
  now rewrite H, IH.
Qed.

Lemma omapM_map {A B C} (f : B -> outcome C) (g : A -> B) l :
  omapM f (map g l) = omapM (fun x => f (g x)) l.
Proof.
  induction l as [|x l IH]; simpl; [reflexivity|]. now rewrite IH.
Qed.

Lemma eval_get_particle_energy i coords self :
  eval (get_particle_energy i coords) self =
  obind (getitem coords i) (fun r_i =>
  obind (np_delete (minimum_image_distance (Geom self) r_i coords) i) (fun red =>
  omap np_sum (omapM lj (np_select_lt red (cutoff2 self))))).
Proof.
  unfold get_particle_energy.
  rewrite eval_bind by frame. rewrite eval_lift.
  destruct (getitem coords i) as [r_i|e]; simpl; [|reflexivity].
  rewrite eval_bind by frame. rewrite eval_gets. simpl.
  rewrite eval_bind by frame. rewrite eval_lift.
  destruct (np_delete _ i) as [red|e]; simpl; [|reflexivity].
  rewrite eval_bind by frame. rewrite eval_gets. simpl.
  rewrite eval_bind by frame. rewrite eval_broadcast by frame.
  rewrite (omapM_ext _ lj) by (intros; apply eval_lennard_jones_potential).
  unfold omap. destruct (omapM lj _); reflexivity.
Qed.

(** ** Indexing *)

Lemma normalize_index_nonneg len i :
  (0 <= i < Z.of_nat len)%Z -> normalize_index len i = Ok (Z.to_nat i).
Proof.
  intros Hi. unfold normalize_index.
  destruct (Z.ltb_spec i (- Z.of_nat len)); [lia|].
  destruct (Z.leb_spec (Z.of_nat len) i); [lia|]. simpl.
  destruct (Z.ltb_spec i 0); [lia|reflexivity].
Qed.

Lemma normalize_index_neg len i :
  (- Z.of_nat len <= i < 0)%Z ->
  normalize_index len i = Ok (Z.to_nat (i + Z.of_nat len)).
Proof.
  intros Hi. unfold normalize_index.
  destruct (Z.ltb_spec i (- Z.of_nat len)); [lia|].
  destruct (Z.leb_spec (Z.of_nat len) i); [lia|]. simpl.
  destruct (Z.ltb_spec i 0); [reflexivity|lia].
Qed.

Lemma normalize_index_out len i :
  (i < - Z.of_nat len \/ Z.of_nat len <= i)%Z ->
  normalize_index len i = Raise IndexError.
Proof.
  intros Hi. unfold normalize_index.
  destruct (Z.ltb_spec i (- Z.of_nat len)); [reflexivity|].
  destruct (Z.leb_spec (Z.of_nat len) i); [reflexivity|lia].
Qed.

Lemma getitem_nth {A} (a : list A) (i : nat) x :
  nth_error a i = Some x -> getitem a (Z.of_nat i) = Ok x.
Proof.
  intros Hx. unfold getitem.
  assert (i < length a)%nat by (apply nth_error_Some; congruence).
  rewrite normalize_index_nonneg by lia. simpl.
  now rewrite Nat2Z.id, Hx.
Qed.

Lemma np_delete_nth {A} (a : list A) (i : nat) :
  (i < length a)%nat -> np_delete a (Z.of_nat i) = Ok (remove_at i a).
Proof.
  intros Hi. unfold np_delete.
  rewrite normalize_index_nonneg by lia. simpl. now rewrite Nat2Z.id.
Qed.

Lemma remove_at_length {A} (a : list A) n :
  (n < length a)%nat -> length (remove_at n a) = (length a - 1)%nat.
Proof.
  revert n. induction a as [|x a IH]; intros [|n] Hn; simpl in *; try lia.
  rewrite IH by lia. lia.
Qed.

(** ** Deleting by position and selecting by index agree *)

Lemma enumerate_cons {A} start (x : A) a :
  enumerate start (x :: a) = (start, x) :: enumerate (S start) a.
Proof. reflexivity. Qed.

Lemma others_above {A} (a : list A) start i :
  (i < start)%nat ->
  map snd (filter (fun jr => negb (fst jr =? i)%nat) (enumerate start a)) = a.
Proof.
  revert start. induction a as [|x a IH]; intros start Hi; [reflexivity|].
  rewrite enumerate_cons. simpl.
  destruct (Nat.eqb_spec start i); [lia|]. simpl.
  now rewrite IH by lia.
Qed.

Lemma others_remove_at {A} (a : list A) start i :
  (start <= i)%nat ->
  map snd (filter (fun jr => negb (fst jr =? i)%nat) (enumerate start a))
  = remove_at (i - start) a.
Proof.
  revert start. induction a as [|x a IH]; intros start Hi; [reflexivity|].
  rewrite enumerate_cons. simpl.
  destruct (Nat.eqb_spec start i) as [->|Hne]; simpl.
  - rewrite Nat.sub_diag. apply others_above. lia.
  - rewrite IH by lia.
    replace (i - start)%nat with (S (i - S start)) by lia. reflexivity.
Qed.

Lemma filter_andb {A} (p q : A -> bool) l :
  filter (fun x => p x && q x) l = filter q (filter p l).
Proof.
  induction l as [|x l IH]; simpl; [reflexivity|].
  destruct (p x); simpl; [destruct (q x)|]; now rewrite IH.
Qed.

Lemma map_snd_filter {A B} (q : B -> bool) (l : list (A * B)) :
  map snd (filter (fun jr => q (snd jr)) l) = filter q (map snd l).
Proof.
  induction l as [|x l IH]; simpl; [reflexivity|].
  destruct (q (snd x)); simpl; now rewrite IH.
Qed.

Lemma neighbours_within_distances i c2 rij2 :
  map snd (neighbours_within i c2 rij2) = np_select_lt (remove_at i rij2) c2.
Proof.
  unfold neighbours_within, np_select_lt.
  rewrite (filter_andb (fun jr => negb (fst jr =? i)%nat)
                       (fun jr => num_ltb (snd jr) c2)).
  rewrite (map_snd_filter (fun r => num_ltb r c2)).
  rewrite others_remove_at by lia. now rewrite Nat.sub_0_r.
Qed.

Lemma enumerate_In {A} (a : list A) start j (x : A) :
  In (j, x) (enumerate start a)
  <-> (start <= j)%nat /\ nth_error a (j - start) = Some x.
Proof.
  revert start. induction a as [|y a IH]; intros start.
  - simpl. split; [tauto|]. intros [_ H]. destruct (j - start)%nat; discriminate.
  - rewrite enumerate_cons. simpl. rewrite IH. split.
    + intros [H|[Hle H]].
      * injection H as <- <-. rewrite Nat.sub_diag. auto.
      * split; [lia|].
        replace (j - start)%nat with (S (j - S start)) by lia. exact H.
    + intros [Hle H]. destruct (Nat.eq_dec start j) as [<-|Hne].
      * rewrite Nat.sub_diag in H. simpl in H. left. congruence.
      * right. split; [lia|].
        replace (j - start)%nat with (S (j - S start)) in H by lia. exact H.
Qed.

(** The selection the specification describes: entry [j] of the distance
    sequence is kept when [j] is another particle and the distance is
    strictly below the squared cutoff. *)
Lemma neighbours_within_In i c2 rij2 j r :
  In (j, r) (neighbours_within i c2 rij2)
  <-> nth_error rij2 j = Some r /\ j <> i /\ r < c2.
Proof.
  unfold neighbours_within. rewrite filter_In, enumerate_In. simpl.
  rewrite andb_true_iff, negb_true_iff, Nat.eqb_neq, num_ltb_lt, Nat.sub_0_r.
  intuition lia.
Qed.

(** ** Total pair energy *)

Lemma eval_for_each {A B} (body : B -> A -> M B) (r : list A) acc self :
  (forall acc i, read_only (body acc i)) ->
  eval (for_each body r acc) self
  = ofold (fun acc i => eval (body acc i) self) r acc.
Proof.
  intros Hb. revert acc. induction r as [|i r IH]; intros acc; simpl.
  - reflexivity.
  - rewrite eval_bind by apply Hb.
    destruct (eval (body acc i) self); simpl; [apply IH|reflexivity].
Qed.

Lemma ofold_ext {A B} (f g : B -> A -> outcome B) r acc :
  (forall acc i, f acc i = g acc i) -> ofold f r acc = ofold g r acc.
Proof.
  intros H. revert acc. induction r as [|i r IH]; intros acc; simpl.
  - reflexivity.
  - rewrite H. destruct (g acc i); simpl; [apply IH|reflexivity].
Qed.

(** The accumulating loop [e_total += E i] adds, onto the initial value, the
    sum of the terms. *)
Lemma accumulate_osum {A} (E : A -> outcome Qc) (r : list A) (acc : Qc) :
  ofold (fun acc i => omap (Qcplus acc) (E i)) r acc
  = omap (Qcplus acc) (osum (map E r)).
Proof.
  revert acc. induction r as [|i r IH]; intros acc.
  - simpl. now rewrite Qcplus_0_r.
  - simpl. destruct (E i) as [x|e]; simpl; [|reflexivity].
    rewrite IH. unfold osum, omap. simpl.
    destruct (omapM (fun o => o) (map E r)) as [ys|e]; simpl; [|reflexivity].
    now rewrite Qcplus_assoc.
Qed.

Lemma eval_calculate_total_pair_energy self :
  eval calculate_total_pair_energy self
  = obind (osum (map (fun i => eval (get_particle_energy (Z.of_nat i)
                                       (coordinates (Geom self))) self)
                     (seq 0 (length (coordinates (Geom self))))))
          (fun e => py_div e (Z2Qc 2)).
Proof.
  unfold calculate_total_pair_energy.
  rewrite eval_bind by frame. rewrite eval_gets. simpl.
  rewrite eval_bind by frame. rewrite eval_for_each by (intros; frame).
  rewrite (ofold_ext _
    (fun acc i => omap (Qcplus acc)
       (eval (get_particle_energy (Z.of_nat i) (coordinates (Geom self))) self))).
  - rewrite accumulate_osum.
    destruct (osum _) as [e|e]; simpl; [|reflexivity].
    now rewrite Qcplus_0_l.
  - intros acc i. rewrite eval_bind by frame. rewrite eval_gets. simpl.
    rewrite eval_bind by frame.
    destruct (eval (get_particle_energy _ _) self); reflexivity.
Qed.

Lemma two_neq_0 : Z2Qc 2 <> 0.
Proof. apply Z2Qc_neq_0. discriminate. Qed.

(** C2.  [calculate_total_pair_energy ()] is the sum of
    [get_particle_energy i] over the particle indices [0 .. N-1], divided by
    two; with no particle the result is 0.0. *)
Theorem calculate_total_pair_energy_half_sum (self : Energy) :
  eval calculate_total_pair_energy self = total_pair_energy_spec self /\
  (length (coordinates (Geom self)) = 0%nat ->
   eval calculate_total_pair_energy self = Ok 0).
Proof.
  assert (H : eval calculate_total_pair_energy self
              = total_pair_energy_spec self).
  { rewrite eval_calculate_total_pair_energy. unfold total_pair_energy_spec.
    destruct (osum _) as [e|e]; simpl; [|reflexivity].
    apply py_div_ok, two_neq_0. }
  split; [exact H|].
  intros HN. rewrite H. unfold total_pair_energy_spec. rewrite HN.
  by_evaluation.
Qed.

Lemma calculate_total_pair_energy_half_sum_witness :
  length (coordinates (Geom energy_empty)) = 0%nat /\
  eval calculate_total_pair_energy energy_empty = Ok 0.
Proof.
  assert (H0 : length (coordinates (Geom energy_empty)) = 0%nat)
    by reflexivity.
  split; [exact H0|].
  exact (proj2 (calculate_total_pair_energy_half_sum energy_empty) H0).
Defined.

(** ** Pair potential *)

(** C3.  For a squared separation [r2 > 0],
    [lennard_jones_potential r2 = 4 * ((1/r2)^6 - (1/r2)^3)]: the two sides
    are the same outcome for every [r2]; for [r2] from [2^-170] to [2^170],
    where no power leaves the binary64 range, the potential is that number;
    and the potential at [r2 = 1] is 0. *)
Theorem lennard_jones_potential_closed_form (self : Energy) (r2 : Qc) :
  eval (lennard_jones_potential r2) self = lennard_jones_spec r2 /\
  (pow2 (-170) <= r2 -> r2 <= pow2 170 ->
   eval (lennard_jones_potential r2) self
   = Ok (Z2Qc 4 * ((1 / r2) ^ 6 - (1 / r2) ^ 3))) /\
  eval (lennard_jones_potential 1) self = Ok 0.
Proof.
  rewrite !eval_lennard_jones_potential.
  assert (Hrel : lj r2 = lennard_jones_spec r2).
  { unfold lj, lennard_jones_spec, np_power.
    destruct (py_div 1 r2) as [inv|e]; simpl obind; [|reflexivity].
    f_equal. simpl Qcpower. ring. }
  split; [exact Hrel|]. split.
  - intros Hlo _. rewrite Hrel. unfold lennard_jones_spec, np_power.
    now rewrite py_div_ok by (eapply above_pow2_nonzero; exact Hlo).
  - by_evaluation.
Qed.

Lemma lennard_jones_potential_closed_form_witness :
  pow2 (-170) <= Z2Qc 4 /\ Z2Qc 4 <= pow2 170 /\
  eval (lennard_jones_potential (Z2Qc 4)) energy_02
    = Ok (Z2Qc 4 * ((1 / Z2Qc 4) ^ 6 - (1 / Z2Qc 4) ^ 3)).
Proof.
  assert (Hlo : pow2 (-170) <= Z2Qc 4) by (vm_compute; discriminate).
  assert (Hhi : Z2Qc 4 <= pow2 170) by (vm_compute; discriminate).
  split; [exact Hlo|]. split; [exact Hhi|].
  exact (proj1 (proj2 (lennard_jones_potential_closed_form energy_02
                         (Z2Qc 4))) Hlo Hhi).
Defined.

(** ** Tail correction *)

Lemma nine_neq_0 : Z2Qc 9 <> 0.
Proof. apply Z2Qc_neq_0. discriminate. Qed.

Lemma eval_calculate_tail_correction self :
  eval calculate_tail_correction self =
  let N := Z2Qc (num_particles (Geom self)) in
  obind (py_div 1 (cutoff self)) (fun inv =>
  obind (py_div (Z2Qc 8 / Z2Qc 9 * np_pi * N) (volume (Geom self))) (fun q =>
  Ok (((inv ^ 3) ^ 3 - Z2Qc 3 * inv ^ 3) * (q * N)))).
Proof.
  unfold calculate_tail_correction.
  rewrite eval_bind by frame. rewrite eval_gets. simpl obind.
  rewrite eval_bind by frame. rewrite eval_gets. simpl obind.
  rewrite eval_bind by frame. rewrite eval_lift.
  destruct (py_div 1 (cutoff self)) as [inv|e]; simpl obind; [|reflexivity].
  rewrite eval_bind by frame. rewrite eval_lift.
  rewrite (py_div_ok _ nine_neq_0). simpl obind.
  rewrite eval_bind by frame. rewrite eval_gets. simpl obind.
  rewrite eval_bind by frame. rewrite eval_lift.
  destruct (py_div _ (volume (Geom self))); reflexivity.
Qed.

Lemma tail_correction_spec_closed_form N V rc :
  rc <> 0 -> V <> 0 ->
  tail_correction_spec N V rc
  = Ok (Z2Qc 8 / Z2Qc 9 * np_pi * (Z2Qc N / V) * Z2Qc N
        * ((1 / rc) ^ 9 - Z2Qc 3 * (1 / rc) ^ 3)).
Proof.
  intros Hrc HV. unfold tail_correction_spec.
  rewrite (py_div_ok _ nine_neq_0), (py_div_ok _ HV), (py_div_ok _ Hrc).
  reflexivity.
Qed.

Lemma tail_correction_spec_fault N V rc :
  rc = 0 \/ V = 0 -> tail_correction_spec N V rc = Raise NumericFault.
Proof.
  intros H. unfold tail_correction_spec.
  rewrite (py_div_ok _ nine_neq_0). simpl obind.
  destruct (Qc_eq_dec V 0) as [->|HV]; [reflexivity|].
  rewrite (py_div_ok _ HV). simpl obind.
  destruct H as [->|HV0]; [reflexivity|contradiction].
Qed.

Lemma calculate_tail_correction_is_spec self :
  eval calculate_tail_correction self
  = tail_correction_spec (num_particles (Geom self)) (volume (Geom self))
                         (cutoff self).
Proof.
  rewrite eval_calculate_tail_correction. cbv zeta.
  destruct (Qc_eq_dec (cutoff self) 0) as [Hrc|Hrc].
  - rewrite tail_correction_spec_fault by now left. now rewrite Hrc.
  - rewrite (py_div_ok _ Hrc). simpl obind.
    destruct (Qc_eq_dec (volume (Geom self)) 0) as [HV|HV].
    + rewrite tail_correction_spec_fault by now right. now rewrite HV.
    + rewrite (py_div_ok _ HV). simpl obind.
      rewrite tail_correction_spec_closed_form by assumption.
      f_equal. unfold Qcdiv. simpl Qcpower. ring.
Qed.

(** C4.  [calculate_tail_correction ()] is
    [(8/9) * pi * (N / V) * N * ((1/cutoff)^9 - 3 * (1/cutoff)^3)] for the
    particle count [N] and cell volume [V]: the two sides are the same
    outcome, and for a cutoff from [2^-50] to [2^50], a volume from [2^-100]
    to [2^100] and a count of magnitude at most [2^100], where nothing leaves
    the binary64 range, the method returns that number.  It is a function of
    [(N, V, cutoff)] alone, whatever the coordinates. *)
Theorem calculate_tail_correction_formula (self : Energy) :
  let N := num_particles (Geom self) in
  let V := volume (Geom self) in
  let rc := cutoff self in
  ((- 2 ^ 1000 <= N <= 2 ^ 1000)%Z ->
   eval calculate_tail_correction self = tail_correction_spec N V rc) /\
  (pow2 (-50) <= rc -> rc <= pow2 50 ->
   pow2 (-100) <= V -> V <= pow2 100 ->
   (- 2 ^ 100 <= N <= 2 ^ 100)%Z ->
   eval calculate_tail_correction self
   = Ok (Z2Qc 8 / Z2Qc 9 * np_pi * (Z2Qc N / V) * Z2Qc N
         * ((1 / rc) ^ 9 - Z2Qc 3 * (1 / rc) ^ 3))) /\
  (forall other : Energy,
     num_particles (Geom other) = N -> volume (Geom other) = V ->
     cutoff other = rc ->
     eval calculate_tail_correction other
     = eval calculate_tail_correction self).
Proof.
  intros N V rc. split; [|split].
  - intros _. apply calculate_tail_correction_is_spec.
  - intros Hrc _ HV _ _. rewrite calculate_tail_correction_is_spec.
    apply tail_correction_spec_closed_form; eapply above_pow2_nonzero; eauto.
  - intros other HN HV Hrc. rewrite !calculate_tail_correction_is_spec.
    now rewrite HN, HV, Hrc.
Qed.

Lemma calculate_tail_correction_formula_witness :
  (- 2 ^ 1000 <= num_particles (Geom energy_02) <= 2 ^ 1000)%Z /\
  pow2 (-50) <= cutoff energy_02 /\ cutoff energy_02 <= pow2 50 /\
  pow2 (-100) <= volume (Geom energy_02) /\
  volume (Geom energy_02) <= pow2 100 /\
  (- 2 ^ 100 <= num_particles (Geom energy_02) <= 2 ^ 100)%Z /\
  eval calculate_tail_correction energy_02
  = tail_correction_spec 2 (Z2Qc 1000) (Z2Qc 3) /\
  eval calculate_tail_correction energy_02
  = Ok (Z2Qc 8 / Z2Qc 9 * np_pi * (Z2Qc 2 / Z2Qc 1000) * Z2Qc 2
        * ((1 / Z2Qc 3) ^ 9 - Z2Qc 3 * (1 / Z2Qc 3) ^ 3)) /\
  eval calculate_tail_correction energy_05
  = eval calculate_tail_correction energy_02.
Proof.
  assert (HN0 : (- 2 ^ 1000 <= num_particles (Geom energy_02) <= 2 ^ 1000)%Z)
    by (simpl; lia).
  assert (H1 : pow2 (-50) <= cutoff energy_02) by (vm_compute; discriminate).
  assert (H2 : cutoff energy_02 <= pow2 50) by (vm_compute; discriminate).
  assert (H3 : pow2 (-100) <= volume (Geom energy_02))
    by (vm_compute; discriminate).
  assert (H4 : volume (Geom energy_02) <= pow2 100)
    by (vm_compute; discriminate).
  assert (HN : (- 2 ^ 100 <= num_particles (Geom energy_02) <= 2 ^ 100)%Z)
    by (simpl; lia).
  destruct (calculate_tail_correction_formula energy_02) as (Hs & Hc & Hi).
  repeat (split; [assumption|]).
  split; [exact (Hs HN0)|]. split; [exact (Hc H1 H2 H3 H4 HN)|].
  exact (Hi energy_05 eq_refl eq_refl eq_refl).
Defined.






(** ** Construction *)

Lemma new_Energy_run g c :
  new_Energy g c = omap (mkEnergy g c) (py_pow c 2).
Proof.
  unfold new_Energy, __init__, bind, set_Geom, set_cutoff, set_cutoff2, gets,
    lift. simpl.
  destruct (py_pow c 2); reflexivity.
Qed.

Lemma new_Energy_ok g c :
  representable (c ^ 2) = true ->
  new_Energy g c = Ok (mkEnergy g c (c * c)).
Proof.
  intros H. rewrite new_Energy_run, (py_pow_ok _ _ H). simpl.
  now rewrite Qcmult_1_r.
Qed.

(** C5, as the code has it.  Constructing the evaluator with a cutoff [<= 0]
    does not fail with a [ConfigurationError]: no construction raises that
    error, and every cutoff from [-2^500] to [0] is accepted and stored with
    its square.  A non-positive cutoff is not rejected at construction time. *)
Theorem new_Energy_accepts_nonpositive_cutoff (g : Geometry) (c : Qc) :
  new_Energy g c <> Raise ConfigurationError /\
  (- pow2 500 <= c -> c <= 0 ->
   exists c2, py_pow c 2 = Ok c2 /\ new_Energy g c = Ok (mkEnergy g c c2)).
Proof.
  rewrite new_Energy_run. split.
  - destruct (py_pow c 2) as [c2|e] eqn:Hp; simpl; [discriminate|].
    apply py_pow_fault in Hp. subst e. discriminate.
  - intros Hlo Hhi.
    assert (Hhi' : c <= pow2 500).
    { apply Qcle_trans with 0; [exact Hhi|discriminate]. }
    rewrite (py_pow_ok _ _ (representable_square_small Hlo Hhi')).
    eexists. split; reflexivity.
Qed.

Lemma new_Energy_accepts_nonpositive_cutoff_witness :
  - pow2 500 <= Z2Qc (-3) /\ Z2Qc (-3) <= 0 /\
  exists c2, py_pow (Z2Qc (-3)) 2 = Ok c2 /\
             new_Energy empty_box (Z2Qc (-3))
             = Ok (mkEnergy empty_box (Z2Qc (-3)) c2).
Proof.
  assert (Hlo : - pow2 500 <= Z2Qc (-3)) by (vm_compute; discriminate).
  assert (Hhi : Z2Qc (-3) <= 0) by discriminate.
  split; [exact Hlo|]. split; [exact Hhi|].
  exact (proj2 (new_Energy_accepts_nonpositive_cutoff empty_box (Z2Qc (-3)))
               Hlo Hhi).
Defined.

(** C5 as stated fails: cutoff 0 is accepted at construction, and so is a
    negative cutoff. *)
Lemma zero_cutoff_is_constructed :
  0 <= 0 /\ Z2Qc (-3) <= 0 /\
  new_Energy empty_box 0 = Ok (mkEnergy empty_box 0 0) /\
  new_Energy empty_box 0 <> Raise ConfigurationError /\
  new_Energy empty_box (Z2Qc (-3)) <> Raise ConfigurationError.
Proof.
  split; [discriminate|]. split; [discriminate|].
  split; [reflexivity|]. split; discriminate.
Qed.

(** ** The evaluator is immutable *)

Lemma method_read_only k : read_only (method k).
Proof. destruct k; simpl; auto with frame. Qed.

Lemma reachable_is_constructed g c self :
  reachable g c self -> new_Energy g c = Ok self.
Proof.
  induction 1 as [self Hnew|self k _ IH].
  - exact Hnew.
  - now rewrite method_read_only.
Qed.

(** ** Indices outside the particle range *)

Lemma getitem_out {A} (a : list A) i :
  (i < - Z.of_nat (length a) \/ Z.of_nat (length a) <= i)%Z ->
  getitem a i = Raise IndexError.
Proof.
  intros Hi. unfold getitem. now rewrite normalize_index_out.
Qed.

(** C6, as the code has it.  For an index [i >= N] or [i < -N],
    [get_particle_energy i coordinates] raises [IndexError]. *)
Theorem get_particle_energy_index_error
    (self : Energy) (coords : list point) (i : Z) :
  (i < - Z.of_nat (length coords) \/ Z.of_nat (length coords) <= i)%Z ->
  eval (get_particle_energy i coords) self = Raise IndexError.
Proof.
  intros Hi. rewrite eval_get_particle_energy.
  now rewrite getitem_out.
Qed.

Lemma get_particle_energy_index_error_witness :
  (2 < - Z.of_nat (length pair_02) \/ Z.of_nat (length pair_02) <= 2)%Z /\
  eval (get_particle_energy 2 pair_02) energy_02 = Raise IndexError.
Proof.
  assert (H : (2 < - Z.of_nat (length pair_02)
               \/ Z.of_nat (length pair_02) <= 2)%Z) by (right; simpl; lia).
  split; [exact H|].
  exact (get_particle_energy_index_error energy_02 pair_02 H).
Defined.

(** C6 as stated fails on the negative indices [-N .. -1]: with two
    particles, index [-1] is outside [[0, 2)] and the call returns the energy
    of the last particle. *)
Lemma last_particle_by_negative_index :
  ~ (0 <= -1 < Z.of_nat (length pair_02))%Z /\
  eval (get_particle_energy (-1) pair_02) energy_02
  = Ok (Q2Qc (-63 # 1024)) /\
  eval (get_particle_energy (-1) pair_02) energy_02 <> Raise IndexError.
Proof.
  split; [lia|].
  assert (H : eval (get_particle_energy (-1) pair_02) energy_02
              = Ok (Q2Qc (-63 # 1024))) by by_evaluation.
  split; [exact H|]. rewrite H. discriminate.
Qed.

(** ** Negative indices count from the end *)

Lemma normalize_index_from_end len k :
  (1 <= k <= Z.of_nat len)%Z ->
  normalize_index len (- k) = Ok (Z.to_nat (Z.of_nat len - k)) /\
  normalize_index len (Z.of_nat len - k) = Ok (Z.to_nat (Z.of_nat len - k)).
Proof.
  intros Hk. split.
  - rewrite normalize_index_neg by lia. do 2 f_equal. lia.
  - now rewrite normalize_index_nonneg by lia.
Qed.

Lemma getitem_from_end {A} (a : list A) k :
  (1 <= k <= Z.of_nat (length a))%Z ->
  getitem a (- k) = getitem a (Z.of_nat (length a) - k) /\
  exists x, getitem a (- k) = Ok x.
Proof.
  intros Hk. unfold getitem.
  destruct (normalize_index_from_end (length a) Hk) as [-> ->].
  split; [reflexivity|]. simpl.
  destruct (nth_error a (Z.to_nat (Z.of_nat (length a) - k))) as [x|] eqn:Hx.
  - now exists x.
  - apply nth_error_None in Hx. lia.
Qed.

Lemma np_delete_from_end {A} (a : list A) k :
  (1 <= k <= Z.of_nat (length a))%Z ->
  np_delete a (- k) = np_delete a (Z.of_nat (length a) - k) /\
  exists a', np_delete a (- k) = Ok a'.
Proof.
  intros Hk. unfold np_delete.
  destruct (normalize_index_from_end (length a) Hk) as [-> ->].
  split; [reflexivity|]. simpl. eauto.
Qed.

Lemma lj_fault r e : lj r = Raise e -> e = NumericFault.
Proof.
  unfold lj, py_div. destruct (num_eqb r 0); simpl; congruence.
Qed.

Lemma omapM_lj_fault l e : omapM lj l = Raise e -> e = NumericFault.
Proof.
  induction l as [|r l IH]; simpl; [discriminate|].
  destruct (lj r) as [y|e'] eqn:Hr; simpl.
  - destruct (omapM lj l) as [ys|e'']; simpl; [discriminate|].
    intros H. apply IH. congruence.
  - intros H. apply (lj_fault r). congruence.
Qed.

(** ** No particle within the cutoff *)

Lemma np_select_lt_none a c2 :
  (forall j, (j < length a)%nat -> c2 <= nth j a 0) -> np_select_lt a c2 = [].
Proof.
  induction a as [|x a IH]; intros H; [reflexivity|].
  unfold np_select_lt in *. simpl.
  rewrite (proj2 (num_ltb_ge x c2)) by (apply (H 0%nat); simpl; lia).
  apply IH. intros j Hj. apply (H (S j)). simpl. lia.
Qed.

Lemma np_select_lt_remove_at_none a i c2 :
  (forall j, (j < length a)%nat -> j <> i -> c2 <= nth j a 0) ->
  np_select_lt (remove_at i a) c2 = [].
Proof.
  revert i. induction a as [|x a IH]; intros i H; [reflexivity|].
  destruct i as [|i]; simpl.
  - apply np_select_lt_none. intros j Hj.
    apply (H (S j)); simpl; lia.
  - unfold np_select_lt in *. simpl.
    rewrite (proj2 (num_ltb_ge x c2)) by (apply (H 0%nat); simpl; lia).
    apply IH. intros j Hj Hne. apply (H (S j)); simpl; lia.
Qed.

Lemma osum_zeros (l : list (outcome Qc)) :
  Forall (fun o => o = Ok 0) l -> osum l = Ok 0.
Proof.
  unfold osum. induction 1 as [|o l Ho _ IH]; [reflexivity|].
  subst o. simpl. destruct (omapM (fun o => o) l) as [ys|e]; simpl in *.
  - injection IH as IH. now rewrite IH, Qcplus_0_l.
  - discriminate.
Qed.

(** ** Under the collaborator's contract *)

Section DistanceContract.

Variable self : Energy.
Hypothesis contract : distance_contract (Geom self).

(** C1.  For a particle index [i] in [[0, N)] and a coordinate set of [N]
    particles, [get_particle_energy i coordinates] is the sum of the
    Lennard-Jones potential over exactly the other particles [j] whose
    squared minimum-image distance to [i] is strictly below [cutoff2]; the
    self-distance is excluded by removing entry [i] of the length-[N]
    distance sequence, which leaves [N - 1] values, before the filter. *)
Theorem get_particle_energy_sums_neighbours
    (coords : list point) (i : nat) (r_i : point) :
  nth_error coords i = Some r_i ->
  let rij2 := minimum_image_distance (Geom self) r_i coords in
  let red := remove_at i rij2 in
  length rij2 = length coords /\
  length red = (length coords - 1)%nat /\
  eval (get_particle_energy (Z.of_nat i) coords) self
    = omap np_sum (omapM (fun r => eval (lennard_jones_potential r) self)
                         (np_select_lt red (cutoff2 self))) /\
  eval (get_particle_energy (Z.of_nat i) coords) self
    = particle_energy_spec self i r_i coords.
Proof.
  intros Hi rij2 red.
  assert (Hi' : (i < length coords)%nat) by (apply nth_error_Some; congruence).
  assert (Hl : length rij2 = length coords) by apply contract.
  assert (Heval : eval (get_particle_energy (Z.of_nat i) coords) self
                  = omap np_sum (omapM lj (np_select_lt red (cutoff2 self)))).
  { rewrite eval_get_particle_energy, (getitem_nth _ _ Hi). simpl.
    fold rij2. rewrite np_delete_nth by lia. reflexivity. }
  repeat split.
  - exact Hl.
  - unfold red. rewrite remove_at_length by lia. now rewrite Hl.
  - rewrite Heval. f_equal. apply omapM_ext.
    intros r. symmetry. apply eval_lennard_jones_potential.
  - rewrite Heval. unfold particle_energy_spec. fold rij2. f_equal.
    unfold red. rewrite <- neighbours_within_distances, omapM_map.
    apply omapM_ext. intros jr. symmetry. apply eval_lennard_jones_potential.
Qed.

(** C10.  For a coordinate set of [N >= 1] particles and [1 <= k <= N],
    [get_particle_energy (-k) coordinates] does not raise and returns what
    [get_particle_energy (N - k) coordinates] returns: the coordinate lookup
    and the deletion of the self entry both read [-k] as position [N - k]. *)
Theorem get_particle_energy_negative_index (coords : list point) (k : Z) :
  (1 <= k <= Z.of_nat (length coords))%Z ->
  eval (get_particle_energy (- k) coords) self
  = eval (get_particle_energy (Z.of_nat (length coords) - k) coords) self /\
  eval (get_particle_energy (- k) coords) self <> Raise IndexError /\
  getitem coords (- k) = getitem coords (Z.of_nat (length coords) - k) /\
  (forall r_i,
     let rij2 := minimum_image_distance (Geom self) r_i coords in
     np_delete rij2 (- k) = np_delete rij2 (Z.of_nat (length coords) - k)).
Proof.
  intros Hk.
  destruct (getitem_from_end coords Hk) as [Hget [r_i Hr]].
  assert (Hdel : forall r,
     let rij2 := minimum_image_distance (Geom self) r coords in
     np_delete rij2 (- k) = np_delete rij2 (Z.of_nat (length coords) - k) /\
     exists red, np_delete rij2 (- k) = Ok red).
  { intros r rij2. rewrite <- (contract r coords). fold rij2.
    apply np_delete_from_end. unfold rij2. now rewrite contract. }
  split; [|split; [|split]].
  - rewrite !eval_get_particle_energy, <- Hget, Hr. simpl.
    now rewrite (proj1 (Hdel r_i)).
  - rewrite eval_get_particle_energy, Hr. simpl.
    destruct (Hdel r_i) as [_ [red ->]]. simpl.
    destruct (omapM lj _) as [pot|e] eqn:Hpot; simpl; [discriminate|].
    apply omapM_lj_fault in Hpot. subst e. discriminate.
  - exact Hget.
  - intros r. apply Hdel.
Qed.

(** C7.  For [N >= 2] particles placed so that every pairwise squared
    minimum-image distance is at least [cutoff2],
    [calculate_total_pair_energy ()] is 0.0 and so is every
    [get_particle_energy i], the sum over an empty selection. *)
Theorem no_neighbours_zero_energy :
  let coords := coordinates (Geom self) in
  let N := length coords in
  (2 <= N)%nat ->
  (forall i j r_i,
     nth_error coords i = Some r_i -> (j < N)%nat -> j <> i ->
     cutoff2 self <= nth j (minimum_image_distance (Geom self) r_i coords) 0) ->
  eval calculate_total_pair_energy self = Ok 0 /\
  (forall i, (i < N)%nat ->
     eval (get_particle_energy (Z.of_nat i) coords) self = Ok 0).
Proof.
  intros coords N HN Hfar.
  assert (Hpe : forall i, (i < N)%nat ->
            eval (get_particle_energy (Z.of_nat i) coords) self = Ok 0).
  { intros i Hi.
    destruct (nth_error coords i) as [r_i|] eqn:Hr;
      [|apply nth_error_None in Hr; unfold N in Hi; lia].
    rewrite eval_get_particle_energy, (getitem_nth _ _ Hr). simpl.
    rewrite np_delete_nth by (rewrite contract; exact Hi). simpl.
    rewrite np_select_lt_remove_at_none; [reflexivity|].
    intros j Hj Hne. rewrite contract in Hj. now apply (Hfar i j r_i). }
  split; [|exact Hpe].
  rewrite eval_calculate_total_pair_energy. fold coords. fold N.
  rewrite osum_zeros.
  - simpl. rewrite (py_div_ok _ two_neq_0). f_equal.
    unfold Qcdiv. apply Qcmult_0_l.
  - apply Forall_forall. intros o Ho. apply in_map_iff in Ho.
    destruct Ho as (i & <- & Hi). apply in_seq in Hi. apply Hpe. lia.
Qed.

End DistanceContract.

Lemma open_geometry_contract cs V : distance_contract (open_geometry cs V).
Proof. intros r cs'. simpl. apply length_map. Qed.

Lemma get_particle_energy_sums_neighbours_witness :
  distance_contract (Geom energy_02) /\
  nth_error pair_02 0 = Some (at_x 0) /\
  eval (get_particle_energy 0 pair_02) energy_02
  = particle_energy_spec energy_02 0 (at_x 0) pair_02.
Proof.
  assert (Hc : distance_contract (Geom energy_02))
    by apply open_geometry_contract.
  assert (Hn : nth_error pair_02 0 = Some (at_x 0)) by reflexivity.
  split; [exact Hc|]. split; [exact Hn|].
  apply (@get_particle_energy_sums_neighbours energy_02 Hc pair_02 0 (at_x 0) Hn).
Defined.

Lemma get_particle_energy_negative_index_witness :
  distance_contract (Geom energy_02) /\
  (1 <= 2 <= Z.of_nat (length pair_02))%Z /\
  eval (get_particle_energy (- (2)) pair_02) energy_02
  = eval (get_particle_energy (Z.of_nat (length pair_02) - 2) pair_02)
         energy_02.
Proof.
  assert (Hc : distance_contract (Geom energy_02))
    by apply open_geometry_contract.
  assert (Hk : (1 <= 2 <= Z.of_nat (length pair_02))%Z) by (simpl; lia).
  split; [exact Hc|]. split; [exact Hk|].
  exact (proj1 (@get_particle_energy_negative_index energy_02 Hc pair_02 2 Hk)).
Defined.

Lemma no_neighbours_zero_energy_witness :
  distance_contract (Geom energy_03) /\
  (2 <= length (coordinates (Geom energy_03)))%nat /\
  (forall i j r_i,
     nth_error (coordinates (Geom energy_03)) i = Some r_i ->
     (j < length (coordinates (Geom energy_03)))%nat -> j <> i ->
     cutoff2 energy_03
     <= nth j (minimum_image_distance (Geom energy_03) r_i
                 (coordinates (Geom energy_03))) 0) /\
  eval calculate_total_pair_energy energy_03 = Ok 0.
Proof.
  assert (Hc : distance_contract (Geom energy_03))
    by apply open_geometry_contract.
  assert (HN : (2 <= length (coordinates (Geom energy_03)))%nat)
    by (simpl; lia).
  assert (Hfar : forall i j r_i,
     nth_error (coordinates (Geom energy_03)) i = Some r_i ->
     (j < length (coordinates (Geom energy_03)))%nat -> j <> i ->
     cutoff2 energy_03
     <= nth j (minimum_image_distance (Geom energy_03) r_i
                 (coordinates (Geom energy_03))) 0).
  { intros i j r_i Hi Hj Hne.
    destruct i as [|[|i]]; simpl in Hi; try (destruct i; discriminate);
      injection Hi as <-;
      (destruct j as [|[|j]]; simpl in Hj; try lia; try congruence);
      vm_compute; intro H; discriminate H. }
  split; [exact Hc|]. split; [exact HN|]. split; [exact Hfar|].
  exact (proj1 (@no_neighbours_zero_energy energy_03 Hc HN Hfar)).
Defined.

(** * Further properties of the evaluator *)

(** ** The pair potential: where it is defined, its sign and its depth *)

Lemma lj_ok (r : Qc) : r <> 0 -> lj r = Ok (lj_value r).
Proof.
  intros Hr. unfold lj, lj_value. now rewrite py_div_ok.
Qed.

Lemma lj_zero : lj 0 = Raise NumericFault.
Proof. reflexivity. Qed.

Lemma lj_value_factor (r : Qc) :
  lj_value r = Z2Qc 4 * ((1 / r) ^ 3 * ((1 / r) ^ 3 - 1)).
Proof. unfold lj_value. simpl Qcpower. ring. Qed.

Lemma four_pos : 0 < Z2Qc 4.
Proof. reflexivity. Qed.

Lemma complete_square (y : Qc) :
  Z2Qc 4 * (y ^ 2 - y) = (Z2Qc 2 * y - 1) * (Z2Qc 2 * y - 1) + Z2Qc (-1).
Proof.
  replace (Z2Qc 4) with (1 + 1 + 1 + 1) by (apply Qc_is_canon; reflexivity).
  replace (Z2Qc 2) with (1 + 1) by (apply Qc_is_canon; reflexivity).
  replace (Z2Qc (-1)) with (- (1)) by (apply Qc_is_canon; reflexivity).
  simpl Qcpower. ring.
Qed.

Lemma lj_value_depth (r : Qc) : Z2Qc (-1) <= lj_value r.
Proof.
  unfold lj_value. rewrite (complete_square ((1 / r) ^ 3)).
  pose proof (Qcsquare_nonneg (Z2Qc 2 * (1 / r) ^ 3 - 1)) as Hn.
  generalize dependent
    ((Z2Qc 2 * (1 / r) ^ 3 - 1) * (Z2Qc 2 * (1 / r) ^ 3 - 1)).
  intros q Hq. to_Q. lra.
Qed.

(** The potential has no value at [r2 = 0], and whatever number it returns,
    at a negative separation too, is never below the well depth [-1]: it is
    [(2 y - 1)^2 - 1] for [y = (1/r2)^3]. *)
Theorem lennard_jones_potential_depth (self : Energy) (r2 : Qc) :
  eval (lennard_jones_potential 0) self = Raise NumericFault /\
  (forall v, eval (lennard_jones_potential r2) self = Ok v ->
             Z2Qc (-1) <= v).
Proof.
  rewrite !eval_lennard_jones_potential. split; [reflexivity|].
  intros v Hv. destruct (Qc_eq_dec r2 0) as [Hz|Hz].
  - rewrite Hz in Hv. discriminate Hv.
  - rewrite (lj_ok Hz) in Hv. injection Hv as <-. apply lj_value_depth.
Qed.

Lemma lennard_jones_potential_depth_witness :
  eval (lennard_jones_potential (Z2Qc 4)) energy_02
  = Ok (Q2Qc (-63 # 1024)%Q) /\
  Z2Qc (-1) <= Q2Qc (-63 # 1024)%Q.
Proof.
  assert (H : eval (lennard_jones_potential (Z2Qc 4)) energy_02
              = Ok (Q2Qc (-63 # 1024)%Q)).
  { apply outcome_eqb_eq. vm_compute. reflexivity. }
  split; [exact H|].
  exact (proj2 (lennard_jones_potential_depth energy_02 (Z2Qc 4)) _ H).
Defined.

(** The potential is attractive (negative) beyond unit separation and
    repulsive (positive) inside it, for separations from [2^-100] to
    [2^100], where no power leaves the binary64 range. *)
Theorem lennard_jones_potential_sign (self : Energy) (r2 : Qc) :
  (1 < r2 -> r2 <= pow2 100 ->
   exists v, eval (lennard_jones_potential r2) self = Ok v /\ v < 0) /\
  (pow2 (-100) <= r2 -> r2 < 1 ->
   exists v, eval (lennard_jones_potential r2) self = Ok v /\ 0 < v).
Proof.
  rewrite eval_lennard_jones_potential. split.
  - intros Hr _.
    assert (Hne : r2 <> 0) by (intros ->; discriminate Hr).
    exists (lj_value r2). split; [now apply lj_ok|].
    destruct (Qcinv_lt_1 Hr) as [Hx0 Hx1].
    pose proof (Qcpower3_pos Hx0) as Hy0.
    pose proof (Qcpower3_lt_1 Hx0 Hx1) as Hy1.
    rewrite lj_value_factor. generalize dependent ((1 / r2) ^ 3).
    intros y Hy0 Hy1. to_Q. nra.
  - intros Hlo H1.
    assert (H0 : 0 < r2).
    { apply Qclt_le_trans with (pow2 (-100)); [apply pow2_pos|exact Hlo]. }
    assert (Hne : r2 <> 0) by (intros ->; discriminate H0).
    exists (lj_value r2). split; [now apply lj_ok|].
    pose proof (Qcpower3_gt_1 (Qcinv_gt_1 H0 H1)) as Hy1.
    rewrite lj_value_factor. generalize dependent ((1 / r2) ^ 3).
    intros y Hy1. to_Q. nra.
Qed.

Lemma lennard_jones_potential_sign_witness :
  1 < Z2Qc 4 /\ Z2Qc 4 <= pow2 100 /\
  (exists v, eval (lennard_jones_potential (Z2Qc 4)) energy_02 = Ok v
             /\ v < 0) /\
  pow2 (-100) <= Q2Qc (1 # 4) /\ Q2Qc (1 # 4) < 1 /\
  (exists v, eval (lennard_jones_potential (Q2Qc (1 # 4))) energy_02 = Ok v
             /\ 0 < v).
Proof.
  assert (H4 : 1 < Z2Qc 4) by reflexivity.
  assert (H4' : Z2Qc 4 <= pow2 100) by (vm_compute; discriminate).
  assert (H0 : pow2 (-100) <= Q2Qc (1 # 4)) by (vm_compute; discriminate).
  assert (H1 : Q2Qc (1 # 4) < 1) by reflexivity.
  split; [exact H4|]. split; [exact H4'|]. split.
  - exact (proj1 (lennard_jones_potential_sign energy_02 (Z2Qc 4)) H4 H4').
  - split; [exact H0|]. split; [exact H1|].
    exact (proj2 (lennard_jones_potential_sign energy_02 (Q2Qc (1 # 4)))
                 H0 H1).
Defined.

(** ** Per-particle energy: value and faults *)

Lemma omapM_lj_ok (l : list Qc) :
  (forall r, In r l -> r <> 0) -> omapM lj l = Ok (map lj_value l).
Proof.
  induction l as [|r l IH]; intros H; [reflexivity|]. simpl.
  rewrite lj_ok by (apply H; now left). simpl.
  rewrite IH by (intros r' Hr'; apply H; now right). reflexivity.
Qed.

Lemma omapM_lj_zero (l : list Qc) :
  In 0 l -> omapM lj l = Raise NumericFault.
Proof.
  induction l as [|r l IH]; intros H; [destruct H|]. simpl.
  destruct (Qc_eq_dec r 0) as [->|Hr]; [reflexivity|].
  rewrite (lj_ok Hr). simpl. rewrite IH; [reflexivity|].
  destruct H as [H|H]; [congruence|exact H].
Qed.

Lemma selected_In (i : nat) (c2 : Qc) (row : list Qc) (r : Qc) :
  In r (np_select_lt (remove_at i row) c2)
  <-> exists j, nth_error row j = Some r /\ j <> i /\ r < c2.
Proof.
  rewrite <- neighbours_within_distances, in_map_iff. split.
  - intros [[j r'] [Hr Hin]]. simpl in Hr. subst r'.
    exists j. now apply neighbours_within_In.
  - intros [j Hj]. exists (j, r). split; [reflexivity|].
    now apply neighbours_within_In.
Qed.

Section ValidIndex.

Variable self : Energy.
Hypothesis contract : distance_contract (Geom self).

Variable coords : list point.
Variable i : nat.
Variable r_i : point.
Hypothesis valid : nth_error coords i = Some r_i.

Let row := minimum_image_distance (Geom self) r_i coords.
Let selected := np_select_lt (remove_at i row) (cutoff2 self).

Lemma eval_get_particle_energy_valid :
  eval (get_particle_energy (Z.of_nat i) coords) self
  = omap np_sum (omapM lj selected).
Proof.
  assert (Hi : (i < length coords)%nat) by (apply nth_error_Some; congruence).
  rewrite eval_get_particle_energy, (getitem_nth _ _ valid). simpl.
  fold row. rewrite np_delete_nth by (unfold row; now rewrite contract).
  reflexivity.
Qed.

Lemma selected_zero_iff :
  In 0 selected
  <-> 0 < cutoff2 self /\ exists j, j <> i /\ nth_error row j = Some 0.
Proof.
  unfold selected. rewrite selected_In. split.
  - intros (j & Hj & Hne & Hlt). split; [exact Hlt|]. now exists j.
  - intros (Hlt & j & Hne & Hj). now exists j.
Qed.

Lemma get_particle_energy_fault_zero :
  eval (get_particle_energy (Z.of_nat i) coords) self = Raise NumericFault
  <-> In 0 selected.
Proof.
  rewrite eval_get_particle_energy_valid. split.
  - intros H. destruct (in_dec Qc_eq_dec 0 selected) as [Hin|Hnin];
      [exact Hin|].
    rewrite omapM_lj_ok in H by (intros r Hr ->; contradiction).
    discriminate H.
  - intros Hin. now rewrite (omapM_lj_zero _ Hin).
Qed.

(** For a valid particle index, under the collaborator's contract, the call
    never raises [IndexError].  It has no finite value when the cutoff is
    nonzero and another particle is reported at squared distance 0; the
    particle's own entry, removed by position, does no harm.  When every
    selected distance is at least [2^-100], it returns the sum of the
    potential values of the selected distances. *)
Theorem get_particle_energy_value_or_fault :
  eval (get_particle_energy (Z.of_nat i) coords) self <> Raise IndexError /\
  (0 < cutoff2 self ->
   (exists j, j <> i /\ nth_error row j = Some 0) ->
   eval (get_particle_energy (Z.of_nat i) coords) self = Raise NumericFault) /\
  ((forall r, In r selected -> pow2 (-100) <= r) ->
   eval (get_particle_energy (Z.of_nat i) coords) self
   = Ok (np_sum (map lj_value selected))).
Proof.
  split; [|split].
  - rewrite eval_get_particle_energy_valid.
    destruct (omapM lj selected) as [pot|e] eqn:Hpot; simpl; [discriminate|].
    apply omapM_lj_fault in Hpot. subst e. discriminate.
  - intros Hc2 Hj. apply get_particle_energy_fault_zero.
    apply selected_zero_iff. auto.
  - intros Hfar. rewrite eval_get_particle_energy_valid.
    rewrite omapM_lj_ok; [reflexivity|].
    intros r Hr. eapply above_pow2_nonzero. apply Hfar, Hr.
Qed.

End ValidIndex.

Lemma get_particle_energy_value_or_fault_witness :
  distance_contract (Geom energy_022) /\
  nth_error triple_022 1 = Some (at_x 2) /\
  0 < cutoff2 energy_022 /\
  (exists j, j <> 1%nat /\
     nth_error (minimum_image_distance (Geom energy_022) (at_x 2) triple_022) j
     = Some 0) /\
  eval (get_particle_energy 1 triple_022) energy_022 = Raise NumericFault /\
  nth_error pair_02 0 = Some (at_x 0) /\
  (forall r,
     In r (np_select_lt
             (remove_at 0 (minimum_image_distance (Geom energy_02) (at_x 0)
                             pair_02))
             (cutoff2 energy_02)) ->
     pow2 (-100) <= r) /\
  eval (get_particle_energy 0 pair_02) energy_02
  = Ok (np_sum (map lj_value
          (np_select_lt
             (remove_at 0 (minimum_image_distance (Geom energy_02) (at_x 0)
                             pair_02))
             (cutoff2 energy_02)))).
Proof.
  assert (Hc : distance_contract (Geom energy_022))
    by apply open_geometry_contract.
  assert (Hv : nth_error triple_022 1 = Some (at_x 2)) by reflexivity.
  assert (Hc2 : 0 < cutoff2 energy_022) by reflexivity.
  assert (Hz : exists j, j <> 1%nat /\
                 nth_error (minimum_image_distance (Geom energy_022)
                              (at_x 2) triple_022) j = Some 0).
  { exists 2%nat. split; [discriminate|reflexivity]. }
  assert (Hc' : distance_contract (Geom energy_02))
    by apply open_geometry_contract.
  assert (Hv' : nth_error pair_02 0 = Some (at_x 0)) by reflexivity.
  assert (Hfar : forall r,
     In r (np_select_lt
             (remove_at 0 (minimum_image_distance (Geom energy_02) (at_x 0)
                             pair_02))
             (cutoff2 energy_02)) ->
     pow2 (-100) <= r).
  { intros r Hr. simpl in Hr. destruct Hr as [<-|[]].
    vm_compute. discriminate. }
  split; [exact Hc|]. split; [exact Hv|]. split; [exact Hc2|].
  split; [exact Hz|]. split.
  - exact (proj1 (proj2
             (@get_particle_energy_value_or_fault energy_022 Hc triple_022 1
                (at_x 2) Hv)) Hc2 Hz).
  - split; [exact Hv'|]. split; [exact Hfar|].
    exact (proj2 (proj2
             (@get_particle_energy_value_or_fault energy_02 Hc' pair_02 0
                (at_x 0) Hv')) Hfar).
Defined.

(** Where the collaborator breaks its contract and reports no more than [i]
    distances, the call raises [IndexError] for the valid particle index [i]:
    the deletion of the particle's own entry is out of bounds. *)
Theorem get_particle_energy_short_distances
    (self : Energy) (coords : list point) (i : nat) (r_i : point) :
  nth_error coords i = Some r_i ->
  (length (minimum_image_distance (Geom self) r_i coords) <= i)%nat ->
  eval (get_particle_energy (Z.of_nat i) coords) self = Raise IndexError.
Proof.
  intros Hv Hshort.
  rewrite eval_get_particle_energy, (getitem_nth _ _ Hv). simpl.
  unfold np_delete. rewrite normalize_index_out by lia. reflexivity.
Qed.

Lemma get_particle_energy_short_distances_witness :
  nth_error pair_02 0 = Some (at_x 0) /\
  (length (minimum_image_distance (Geom energy_mute) (at_x 0) pair_02) <= 0)%nat /\
  eval (get_particle_energy 0 pair_02) energy_mute = Raise IndexError.
Proof.
  assert (Hv : nth_error pair_02 0 = Some (at_x 0)) by reflexivity.
  assert (Hs : (length (minimum_image_distance (Geom energy_mute)
                          (at_x 0) pair_02) <= 0)%nat) by (simpl; lia).
  split; [exact Hv|]. split; [exact Hs|].
  exact (@get_particle_energy_short_distances energy_mute pair_02 0%nat (at_x 0)
           Hv Hs).
Defined.

(** ** Sums *)

Lemma np_sum_app (a b : list Qc) : np_sum (a ++ b) = np_sum a + np_sum b.
Proof.
  induction a as [|x a IH]; simpl.
  - now rewrite Qcplus_0_l.
  - rewrite IH. apply Qcplus_assoc.
Qed.

Lemma sigma_S (n : nat) (f : nat -> Qc) : sigma (S n) f = sigma n f + f n.
Proof.
  unfold sigma. rewrite seq_S, map_app, np_sum_app. simpl.
  now rewrite Qcplus_0_r.
Qed.

Lemma sigma_shift (n : nat) (f : nat -> Qc) :
  sigma (S n) f = f 0%nat + sigma n (fun j => f (S j)).
Proof.
  unfold sigma. simpl. now rewrite <- seq_shift, map_map.
Qed.

Lemma sigma_ext (n : nat) (f g : nat -> Qc) :
  (forall j, (j < n)%nat -> f j = g j) -> sigma n f = sigma n g.
Proof.
  intros H. unfold sigma. f_equal. apply map_ext_in.
  intros j Hj. apply in_seq in Hj. apply H. lia.
Qed.

Lemma sigma_plus (n : nat) (f g : nat -> Qc) :
  sigma n (fun j => f j + g j) = sigma n f + sigma n g.
Proof.
  induction n as [|n IH]; [reflexivity|].
  rewrite !sigma_S, IH. ring.
Qed.

Lemma np_sum_filter {A} (f : A -> Qc) (p : A -> bool) (l : list A) :
  np_sum (map f (filter p l))
  = np_sum (map (fun x => if p x then f x else 0) l).
Proof.
  induction l as [|x l IH]; [reflexivity|]. simpl.
  destruct (p x); simpl; rewrite IH; [reflexivity|].
  now rewrite Qcplus_0_l.
Qed.

Lemma np_sum_map_nth (f : Qc -> Qc) (a : list Qc) :
  np_sum (map f a) = sigma (length a) (fun j => f (nth j a 0)).
Proof.
  induction a as [|x a IH]; [reflexivity|].
  simpl length. rewrite sigma_shift. simpl. now rewrite IH.
Qed.

Lemma np_sum_remove_at (f : Qc -> Qc) (a : list Qc) (i : nat) :
  np_sum (map f (remove_at i a))
  = sigma (length a) (fun j => if (j =? i)%nat then 0 else f (nth j a 0)).
Proof.
  revert i. induction a as [|x a IH]; intros i; [reflexivity|].
  simpl length. rewrite sigma_shift. destruct i as [|i]; simpl.
  - rewrite Qcplus_0_l. apply np_sum_map_nth.
  - now rewrite IH.
Qed.

(** A symmetric table with an empty diagonal sums to twice its lower
    triangle. *)
Lemma sigma_symmetric (h : nat -> nat -> Qc) (n : nat) :
  (forall i j, (i < n)%nat -> (j < n)%nat -> h i j = h j i) ->
  (forall i, h i i = 0) ->
  sigma n (fun i => sigma n (h i))
  = sigma n (fun i => sigma i (h i)) + sigma n (fun i => sigma i (h i)).
Proof.
  intros Hsym Hdiag. induction n as [|n IH]; [reflexivity|].
  rewrite !sigma_S.
  rewrite (sigma_ext (fun i => sigma (S n) (h i))
                     (fun i => sigma n (h i) + h i n))
    by (intros; apply sigma_S).
  rewrite sigma_plus, IH by (intros; apply Hsym; lia).
  rewrite Hdiag.
  rewrite (sigma_ext (fun i => h i n) (h n)) by (intros; apply Hsym; lia).
  ring.
Qed.

Lemma osum_ok {A} (E : A -> outcome Qc) (f : A -> Qc) (l : list A) :
  (forall x, In x l -> E x = Ok (f x)) ->
  osum (map E l) = Ok (np_sum (map f l)).
Proof.
  unfold osum. induction l as [|x l IH]; intros H; [reflexivity|]. simpl.
  rewrite (H x) by now left. simpl.
  assert (IH' := IH (fun y Hy => H y (or_intror Hy))).
  destruct (omapM (fun o => o) (map E l)) as [ys|e]; simpl in *.
  - injection IH' as ->. reflexivity.
  - discriminate.
Qed.

Lemma osum_fault (l : list (outcome Qc)) e :
  osum l = Raise e -> In (Raise e) l.
Proof.
  unfold osum. induction l as [|o l IH]; simpl; [discriminate|].
  destruct o as [x|e']; simpl.
  - destruct (omapM (fun o => o) l) as [ys|e'']; simpl in *; [discriminate|].
    intros H. right. apply IH. exact H.
  - intros H. left. congruence.
Qed.

(** ** The total counts every pair once *)

Lemma half_of_double (p : Qc) : (p + p) / Z2Qc 2 = p.
Proof.
  replace (Z2Qc 2) with (1 + 1) by (apply Qc_is_canon; reflexivity).
  field. intros H. apply (f_equal this) in H. discriminate H.
Qed.

Lemma pair_sum_lower_triangle (self : Energy) :
  pair_sum self
  = sigma (length (coordinates (Geom self)))
          (fun i => sigma i (pair_term self i)).
Proof.
  unfold pair_sum, sigma at 1. f_equal. apply map_ext. intros i.
  rewrite np_sum_filter. apply sigma_ext. intros j Hj. unfold pair_term.
  destruct (Nat.eqb_spec j i); [lia|reflexivity].
Qed.

Section PairCount.

Variable self : Energy.
Hypothesis contract : distance_contract (Geom self).

Let coords := coordinates (Geom self).
Let N := length coords.

Hypothesis symmetric :
  forall i j, (i < N)%nat -> (j < N)%nat ->
    distance_between self i j = distance_between self j i.

Hypothesis apart :
  forall i j, (i < N)%nat -> (j < N)%nat -> i <> j ->
    distance_between self i j < cutoff2 self ->
    pow2 (-100) <= distance_between self i j.

Lemma particle_energy_pair_terms (i : nat) :
  (i < N)%nat ->
  eval (get_particle_energy (Z.of_nat i) coords) self
  = Ok (sigma N (pair_term self i)).
Proof.
  intros Hi.
  destruct (nth_error coords i) as [r_i|] eqn:Hr;
    [|apply nth_error_None in Hr; unfold N in Hi; lia].
  assert (HD : forall j,
            nth j (minimum_image_distance (Geom self) r_i coords) 0
            = distance_between self i j).
  { intros j. unfold distance_between. fold coords. now rewrite Hr. }
  rewrite (@eval_get_particle_energy_valid self contract coords i r_i Hr).
  rewrite omapM_lj_ok.
  - simpl. f_equal. unfold np_select_lt.
    rewrite np_sum_filter, np_sum_remove_at, contract. fold N.
    apply sigma_ext. intros j Hj. unfold pair_term. now rewrite HD.
  - intros r Hin. apply selected_In in Hin. destruct Hin as (j & Hj & Hne & Hlt).
    assert (HjN : (j < N)%nat).
    { unfold N. rewrite <- (contract r_i coords).
      apply nth_error_Some. congruence. }
    assert (Hr' : distance_between self i j = r).
    { rewrite <- HD. now apply nth_error_nth. }
    rewrite <- Hr' in *. eapply above_pow2_nonzero. apply apart; auto.
Qed.

Lemma pair_term_symmetric (i j : nat) :
  (i < N)%nat -> (j < N)%nat -> pair_term self i j = pair_term self j i.
Proof.
  intros Hi Hj. unfold pair_term.
  rewrite (Nat.eqb_sym j i), (symmetric Hi Hj). reflexivity.
Qed.

Lemma pair_term_diagonal (i : nat) : pair_term self i i = 0.
Proof. unfold pair_term. now rewrite Nat.eqb_refl. Qed.

(** When the collaborator reports symmetric distances and every distance
    within the cutoff between two distinct particles is at least [2^-100],
    [calculate_total_pair_energy ()] returns the potential summed once over
    the unordered pairs within the cutoff: the halving undoes the double
    count. *)
Theorem calculate_total_pair_energy_counts_pairs_once :
  eval calculate_total_pair_energy self = Ok (pair_sum self).
Proof.
  rewrite eval_calculate_total_pair_energy. fold coords. fold N.
  rewrite (osum_ok _ (fun i => sigma N (pair_term self i))).
  - simpl. rewrite (py_div_ok _ two_neq_0). f_equal.
    change (np_sum (map (fun i => sigma N (pair_term self i)) (seq 0 N)))
      with (sigma N (fun i => sigma N (pair_term self i))).
    rewrite (sigma_symmetric (pair_term self))
      by auto using pair_term_symmetric, pair_term_diagonal.
    rewrite pair_sum_lower_triangle. fold coords. fold N.
    apply half_of_double.
  - intros i Hi. apply in_seq in Hi. apply particle_energy_pair_terms. lia.
Qed.

End PairCount.

Lemma calculate_total_pair_energy_counts_pairs_once_witness :
  distance_contract (Geom energy_02) /\
  (forall i j, (i < 2)%nat -> (j < 2)%nat ->
     distance_between energy_02 i j = distance_between energy_02 j i) /\
  (forall i j, (i < 2)%nat -> (j < 2)%nat -> i <> j ->
     distance_between energy_02 i j < cutoff2 energy_02 ->
     pow2 (-100) <= distance_between energy_02 i j) /\
  eval calculate_total_pair_energy energy_02 = Ok (pair_sum energy_02).
Proof.
  assert (Hc : distance_contract (Geom energy_02))
    by apply open_geometry_contract.
  assert (Hs : forall i j, (i < 2)%nat -> (j < 2)%nat ->
     distance_between energy_02 i j = distance_between energy_02 j i).
  { intros [|[|i]] [|[|j]] Hi Hj; try lia; reflexivity. }
  assert (Ha : forall i j, (i < 2)%nat -> (j < 2)%nat -> i <> j ->
     distance_between energy_02 i j < cutoff2 energy_02 ->
     pow2 (-100) <= distance_between energy_02 i j).
  { intros [|[|i]] [|[|j]] Hi Hj Hne _; try lia;
      vm_compute; discriminate. }
  split; [exact Hc|]. split; [exact Hs|]. split; [exact Ha|].
  exact (@calculate_total_pair_energy_counts_pairs_once energy_02 Hc Hs Ha).
Defined.

(** ** The total: which faults it can have *)

Lemma osum_raises (l : list (outcome Qc)) e :
  In (Raise e) l -> exists e', osum l = Raise e'.
Proof.
  unfold osum. induction l as [|o l IH]; intros H; [destruct H|]. simpl.
  destruct o as [x|e0]; simpl; [|eauto].
  destruct H as [H|H]; [discriminate|].
  destruct (IH H) as [e' He'].
  destruct (omapM (fun o => o) l) as [ys|e'']; simpl in *; [discriminate|].
  eauto.
Qed.

Section TotalFaults.

Variable self : Energy.
Hypothesis contract : distance_contract (Geom self).

Let coords := coordinates (Geom self).
Let N := length coords.

Lemma particle_energy_fault_iff (i : nat) (e : exn) :
  (i < N)%nat ->
  eval (get_particle_energy (Z.of_nat i) coords) self = Raise e ->
  e = NumericFault /\
  0 < cutoff2 self /\
  exists j, (j < N)%nat /\ i <> j /\ distance_between self i j = 0.
Proof.
  intros Hi He.
  destruct (nth_error coords i) as [r_i|] eqn:Hr;
    [|apply nth_error_None in Hr; unfold N in Hi; lia].
  assert (Hn : e = NumericFault).
  { rewrite (@eval_get_particle_energy_valid self contract coords i r_i Hr)
      in He.
    destruct (omapM lj _) as [pot|e'] eqn:Hpot; simpl in He; [discriminate|].
    apply omapM_lj_fault in Hpot. congruence. }
  split; [exact Hn|]. subst e.
  apply (@get_particle_energy_fault_zero self contract coords i r_i Hr) in He.
  apply selected_zero_iff in He.
  destruct He as (Hc2 & j & Hne & Hj). split; [exact Hc2|].
  exists j. split; [|split; [auto|]].
  - unfold N. rewrite <- (contract r_i coords).
    apply nth_error_Some. congruence.
  - unfold distance_between. fold coords. rewrite Hr.
    now apply nth_error_nth.
Qed.

Lemma particle_energy_coincident (i j : nat) :
  (i < N)%nat -> (j < N)%nat -> i <> j ->
  0 < cutoff2 self -> distance_between self i j = 0 ->
  eval (get_particle_energy (Z.of_nat i) coords) self = Raise NumericFault.
Proof.
  intros Hi Hj Hne Hc2 Hd.
  destruct (nth_error coords i) as [r_i|] eqn:Hr;
    [|apply nth_error_None in Hr; unfold N in Hi; lia].
  apply (@get_particle_energy_fault_zero self contract coords i r_i Hr).
  apply selected_zero_iff.
  split; [exact Hc2|]. exists j. split; [auto|].
  unfold distance_between in Hd. fold coords in Hd. rewrite Hr in Hd.
  rewrite <- Hd. apply nth_error_nth'.
  now rewrite contract.
Qed.

(** Under the collaborator's contract [calculate_total_pair_energy ()] never
    raises [IndexError], and it has no finite value when the cutoff is
    nonzero and two distinct particles are reported at squared distance 0. *)
Theorem calculate_total_pair_energy_faults :
  (forall e, eval calculate_total_pair_energy self = Raise e ->
             e = NumericFault) /\
  (0 < cutoff2 self ->
   (exists i j, (i < N)%nat /\ (j < N)%nat /\ i <> j /\
                distance_between self i j = 0) ->
   eval calculate_total_pair_energy self = Raise NumericFault).
Proof.
  assert (Hfault : forall e,
            eval calculate_total_pair_energy self = Raise e ->
            exists i, (i < N)%nat /\
              eval (get_particle_energy (Z.of_nat i) coords) self = Raise e).
  { intros e. rewrite eval_calculate_total_pair_energy. fold coords. fold N.
    destruct (osum _) as [v|e'] eqn:Hs; simpl.
    - rewrite (py_div_ok _ two_neq_0). discriminate.
    - intros H. injection H as ->. apply osum_fault in Hs.
      apply in_map_iff in Hs. destruct Hs as (i & Hi & Hin).
      apply in_seq in Hin. exists i. split; [lia|exact Hi]. }
  split.
  - intros e He. destruct (Hfault e He) as (i & Hi & Hei).
    now destruct (particle_energy_fault_iff Hi Hei).
  - intros Hc2 (i & j & Hi & Hj & Hne & Hd).
    pose proof (particle_energy_coincident Hi Hj Hne Hc2 Hd) as Hei.
    rewrite eval_calculate_total_pair_energy. fold coords. fold N.
    destruct (@osum_raises
                (map (fun i => eval (get_particle_energy (Z.of_nat i) coords)
                                    self) (seq 0 N)) NumericFault)
      as [e' He'].
    { apply in_map_iff. exists i. split; [exact Hei|].
      apply in_seq. lia. }
    rewrite He'. simpl. f_equal.
    apply osum_fault in He'. apply in_map_iff in He'.
    destruct He' as (i' & Hi' & Hin). apply in_seq in Hin.
    assert (Hlt : (i' < N)%nat) by lia.
    now destruct (particle_energy_fault_iff Hlt Hi').
Qed.

End TotalFaults.

Lemma calculate_total_pair_energy_faults_witness :
  distance_contract (Geom energy_022) /\
  0 < cutoff2 energy_022 /\
  (exists i j, (i < 3)%nat /\ (j < 3)%nat /\ i <> j /\
               distance_between energy_022 i j = 0) /\
  eval calculate_total_pair_energy energy_022 = Raise NumericFault.
Proof.
  assert (Hc : distance_contract (Geom energy_022))
    by apply open_geometry_contract.
  assert (Hc2 : 0 < cutoff2 energy_022) by reflexivity.
  assert (Hz : exists i j, (i < 3)%nat /\ (j < 3)%nat /\ i <> j /\
                 distance_between energy_022 i j = 0).
  { exists 1%nat, 2%nat. repeat split; try lia. }
  split; [exact Hc|]. split; [exact Hc2|]. split; [exact Hz|].
  exact (proj2 (@calculate_total_pair_energy_faults energy_022 Hc) Hc2 Hz).
Defined.

(** ** A negative cutoff *)

Lemma get_particle_energy_reads_cutoff2 (e1 e2 : Energy) i coords :
  Geom e1 = Geom e2 -> cutoff2 e1 = cutoff2 e2 ->
  eval (get_particle_energy i coords) e1
  = eval (get_particle_energy i coords) e2.
Proof.
  intros Hg Hc. now rewrite !eval_get_particle_energy, Hg, Hc.
Qed.

Lemma calculate_total_pair_energy_reads_cutoff2 (e1 e2 : Energy) :
  Geom e1 = Geom e2 -> cutoff2 e1 = cutoff2 e2 ->
  eval calculate_total_pair_energy e1 = eval calculate_total_pair_energy e2.
Proof.
  intros Hg Hc. rewrite !eval_calculate_total_pair_energy, Hg.
  do 2 f_equal. apply map_ext. intros i.
  now apply get_particle_energy_reads_cutoff2.
Qed.

(** The constructor accepts a negative cutoff, and the pair energies only
    read its square: an evaluator built with cutoff [-c] returns the same
    per-particle and total pair energies as one built with [c], and the
    opposite tail correction. *)
Theorem negative_cutoff_mirrors (g : Geometry) (c : Qc) :
  (forall i coords,
     obind (new_Energy g (- c)) (eval (get_particle_energy i coords))
     = obind (new_Energy g c) (eval (get_particle_energy i coords))) /\
  obind (new_Energy g (- c)) (eval calculate_total_pair_energy)
  = obind (new_Energy g c) (eval calculate_total_pair_energy) /\
  obind (new_Energy g (- c)) (eval calculate_tail_correction)
  = omap Qcopp (obind (new_Energy g c) (eval calculate_tail_correction)).
Proof.
  rewrite !new_Energy_run.
  assert (Hsq : py_pow (- c) 2 = py_pow c 2).
  { unfold py_pow. replace ((- c) ^ 2) with (c ^ 2); [reflexivity|].
    rewrite !square_power. ring. }
  rewrite Hsq. destruct (py_pow c 2) as [c2|e]; simpl obind;
    [|repeat split; reflexivity].
  split; [|split].
  - intros i coords. now apply get_particle_energy_reads_cutoff2.
  - now apply calculate_total_pair_energy_reads_cutoff2.
  - rewrite !eval_calculate_tail_correction. cbv zeta. simpl.
    destruct (Qc_eq_dec c 0) as [->|Hc]; [reflexivity|].
    assert (Hc' : - c <> 0).
    { intros H. apply Hc. rewrite <- (Qcopp_involutive c), H. reflexivity. }
    rewrite (py_div_ok _ Hc), (py_div_ok _ Hc'). simpl.
    destruct (py_div _ (volume g)) as [q|e]; simpl; [|reflexivity].
    f_equal. field. split; assumption.
Qed.

(** ** A single particle *)

Lemma remove_at_singleton {A} (a : list A) :
  length a = 1%nat -> remove_at 0 a = [].
Proof.
  destruct a as [|x [|y a]]; simpl; intros H; try discriminate; reflexivity.
Qed.

(** A cell with one particle has no pair energy, whatever the cutoff: the
    only distance reported is the particle's own, which is removed before the
    potential is evaluated. *)
Theorem single_particle_zero_energy (self : Energy) :
  distance_contract (Geom self) ->
  length (coordinates (Geom self)) = 1%nat ->
  eval (get_particle_energy 0 (coordinates (Geom self))) self = Ok 0 /\
  eval (get_particle_energy (-1) (coordinates (Geom self))) self = Ok 0 /\
  eval calculate_total_pair_energy self = Ok 0.
Proof.
  intros Hc H1.
  destruct (coordinates (Geom self)) as [|r [|r' l]] eqn:Hco;
    try discriminate H1.
  assert (H0 : eval (get_particle_energy 0 [r]) self = Ok 0).
  { change 0%Z with (Z.of_nat 0).
    rewrite (@eval_get_particle_energy_valid self Hc [r] 0%nat r eq_refl).
    rewrite remove_at_singleton by apply Hc. reflexivity. }
  split; [exact H0|]. split.
  - rewrite eval_get_particle_energy. simpl.
    pose proof (Hc r [r]) as Hrow.
    destruct (minimum_image_distance (Geom self) r [r]) as [|x [|y row]];
      try discriminate Hrow.
    reflexivity.
  - rewrite eval_calculate_total_pair_energy, Hco. simpl seq. simpl map.
    change (Z.of_nat 0) with 0%Z. rewrite H0. by_evaluation.
Qed.

Lemma single_particle_zero_energy_witness :
  distance_contract (Geom energy_single) /\
  length (coordinates (Geom energy_single)) = 1%nat /\
  eval calculate_total_pair_energy energy_single = Ok 0.
Proof.
  assert (Hc : distance_contract (Geom energy_single))
    by apply open_geometry_contract.
  assert (H1 : length (coordinates (Geom energy_single)) = 1%nat)
    by reflexivity.
  split; [exact Hc|]. split; [exact H1|].
  exact (proj2 (proj2 (single_particle_zero_energy energy_single Hc H1))).
Defined.

(** ** The tail correction is attractive *)

Lemma Qcinv_le_1 (r : Qc) : 1 <= r -> 0 < 1 / r /\ 1 / r <= 1.
Proof.
  intros Hr.
  assert (Hne : r <> 0) by (intros ->; apply Hr; reflexivity).
  pose proof (this_inv_l Hne) as Hx.
  unfold Qcdiv. rewrite Qcmult_1_l. to_Q. nra.
Qed.

Lemma Qcpower3_le_1 (a : Qc) : 0 < a -> a <= 1 -> 0 < a ^ 3 /\ a ^ 3 <= 1.
Proof.
  intros H0 H1. simpl. rewrite Qcmult_1_r.
  assert (Haa : 0 < a * a /\ a * a <= 1) by (to_Q; nra).
  destruct Haa as [Haa0 Haa1]. to_Q. nra.
Qed.

Lemma tail_shape_negative (y : Qc) : 0 < y -> y <= 1 -> y ^ 3 - Z2Qc 3 * y < 0.
Proof.
  intros H0 H1.
  assert (Hy3 : y ^ 3 <= y).
  { simpl. rewrite Qcmult_1_r.
    assert (Hyy : 0 < y * y /\ y * y <= y) by (to_Q; nra).
    destruct Hyy as [Hyy0 Hyy1]. to_Q. nra. }
  generalize dependent (y ^ 3). intros y3 Hy3. to_Q. lra.
Qed.

Lemma density_factor_positive (n w : Qc) :
  n <> 0 -> 0 < w -> 0 < Z2Qc 8 / Z2Qc 9 * np_pi * n * w * n.
Proof.
  intros Hn Hw.
  assert (Hk : 0 < Z2Qc 8 / Z2Qc 9 * np_pi) by reflexivity.
  generalize dependent (Z2Qc 8 / Z2Qc 9 * np_pi). intros k Hk.
  assert (Hnn : 0 < n * n).
  { destruct (Qc_dec n 0) as [[Hlt|Hgt]|Heq]; [| |contradiction];
      to_Q; nra. }
  replace (k * n * w * n) with (k * w * (n * n)) by ring.
  auto using Qcmult_pos.
Qed.

Lemma tail_value_negative (c V n : Qc) :
  1 <= c -> 0 < V -> n <> 0 ->
  (((1 / c) ^ 3) ^ 3 - Z2Qc 3 * (1 / c) ^ 3)
  * (Z2Qc 8 / Z2Qc 9 * np_pi * n / V * n) < 0.
Proof.
  intros Hc HV Hn.
  destruct (Qcinv_le_1 Hc) as [Hx0 Hx1].
  destruct (Qcpower3_le_1 Hx0 Hx1) as [Hy0 Hy1].
  pose proof (tail_shape_negative Hy0 Hy1) as He.
  pose proof (density_factor_positive Hn (Qcinv_pos HV)) as Hf.
  change (Z2Qc 8 / Z2Qc 9 * np_pi * n / V * n)
    with (Z2Qc 8 / Z2Qc 9 * np_pi * n * / V * n).
  generalize dependent (Z2Qc 8 / Z2Qc 9 * np_pi * n * / V * n).
  generalize dependent (((1 / c) ^ 3) ^ 3 - Z2Qc 3 * (1 / c) ^ 3).
  intros e He f Hf. to_Q. nra.
Qed.

(** With a cutoff from 1 to [2^50], a volume from [2^-100] to [2^100] and a
    nonzero particle count of magnitude at most [2^100], where nothing leaves
    the binary64 range, [calculate_tail_correction ()] returns a negative
    number. *)
Theorem calculate_tail_correction_negative (self : Energy) :
  1 <= cutoff self -> cutoff self <= pow2 50 ->
  pow2 (-100) <= volume (Geom self) -> volume (Geom self) <= pow2 100 ->
  num_particles (Geom self) <> 0%Z ->
  (- 2 ^ 100 <= num_particles (Geom self) <= 2 ^ 100)%Z ->
  exists e, eval calculate_tail_correction self = Ok e /\ e < 0.
Proof.
  intros Hrc _ HVlo _ HN _.
  assert (HV : 0 < volume (Geom self)).
  { apply Qclt_le_trans with (pow2 (-100)); [apply pow2_pos|exact HVlo]. }
  assert (Hrc0 : cutoff self <> 0)
    by (intros H; rewrite H in Hrc; now apply Hrc).
  assert (HV0 : volume (Geom self) <> 0)
    by (intros H; rewrite H in HV; discriminate HV).
  rewrite eval_calculate_tail_correction. cbv zeta.
  rewrite (py_div_ok _ Hrc0), (py_div_ok _ HV0). cbn [obind].
  eexists. split; [reflexivity|].
  apply tail_value_negative; auto using Z2Qc_neq_0.
Qed.

Lemma calculate_tail_correction_negative_witness :
  1 <= cutoff energy_02 /\ cutoff energy_02 <= pow2 50 /\
  pow2 (-100) <= volume (Geom energy_02) /\
  volume (Geom energy_02) <= pow2 100 /\
  num_particles (Geom energy_02) <> 0%Z /\
  (- 2 ^ 100 <= num_particles (Geom energy_02) <= 2 ^ 100)%Z /\
  exists e, eval calculate_tail_correction energy_02 = Ok e /\ e < 0.
Proof.
  assert (H1 : 1 <= cutoff energy_02) by discriminate.
  assert (H2 : cutoff energy_02 <= pow2 50) by (vm_compute; discriminate).
  assert (H3 : pow2 (-100) <= volume (Geom energy_02))
    by (vm_compute; discriminate).
  assert (H4 : volume (Geom energy_02) <= pow2 100)
    by (vm_compute; discriminate).
  assert (H5 : num_particles (Geom energy_02) <> 0%Z) by discriminate.
  assert (H6 : (- 2 ^ 100 <= num_particles (Geom energy_02) <= 2 ^ 100)%Z)
    by (simpl; lia).
  repeat (split; [assumption|]).
  exact (calculate_tail_correction_negative energy_02 H1 H2 H3 H4 H5 H6).
Defined.

(** ** Energies are bounded below *)

Lemma Z2Qc_plus (a b : Z) : Z2Qc (a + b) = Z2Qc a + Z2Qc b.
Proof.
  apply Qc_is_canon. rewrite this_plus, !this_Z2Qc.
  rewrite inject_Z_plus. reflexivity.
Qed.

Lemma Z2Qc_le (a b : Z) : (a <= b)%Z -> Z2Qc a <= Z2Qc b.
Proof.
  intros H. unfold Qcle. rewrite !this_Z2Qc. now rewrite <- Zle_Qle.
Qed.

Lemma omapM_lj_lower (l : list Qc) (pot : list Qc) :
  omapM lj l = Ok pot -> Z2Qc (- Z.of_nat (length l)) <= np_sum pot.
Proof.
  revert pot. induction l as [|r l IH]; intros pot H.
  - injection H as <-. apply Qcle_refl.
  - simpl in H. destruct (Qc_eq_dec r 0) as [->|Hr]; [discriminate H|].
    rewrite (lj_ok Hr) in H. simpl in H.
    destruct (omapM lj l) as [pot'|e]; simpl in H; [|discriminate H].
    injection H as <-. simpl np_sum.
    replace (- Z.of_nat (length (r :: l)))%Z
      with (-1 + - Z.of_nat (length l))%Z by (simpl length; lia).
    rewrite Z2Qc_plus.
    apply Qcplus_le_compat; [apply lj_value_depth|now apply IH].
Qed.

Lemma osum_lower {A} (E : A -> outcome Qc) (b : Z) (l : list A) (s : Qc) :
  (forall x v, In x l -> E x = Ok v -> Z2Qc b <= v) ->
  osum (map E l) = Ok s ->
  Z2Qc (Z.of_nat (length l) * b) <= s.
Proof.
  unfold osum. revert s. induction l as [|x l IH]; intros s Hb H.
  - injection H as <-. apply Qcle_refl.
  - simpl in H. destruct (E x) as [v|e] eqn:Hx; simpl in H; [|discriminate H].
    destruct (omapM (fun o => o) (map E l)) as [vs|e] eqn:Hl; simpl in H;
      [|discriminate H].
    injection H as <-. simpl np_sum.
    replace (Z.of_nat (length (x :: l)) * b)%Z
      with (b + Z.of_nat (length l) * b)%Z by (simpl length; lia).
    rewrite Z2Qc_plus. apply Qcplus_le_compat.
    + apply (Hb x v); [now left|exact Hx].
    + apply IH; [|reflexivity]. intros y w Hy. apply Hb. now right.
Qed.

Lemma select_length (a : list Qc) (c : Qc) :
  (length (np_select_lt a c) <= length a)%nat.
Proof. apply filter_length_le. Qed.

Section LowerBounds.

Variable self : Energy.
Hypothesis contract : distance_contract (Geom self).

Lemma particle_energy_lower (coords : list point) (i : nat) (v : Qc) :
  (i < length coords)%nat ->
  eval (get_particle_energy (Z.of_nat i) coords) self = Ok v ->
  Z2Qc (- (Z.of_nat (length coords) - 1)) <= v.
Proof.
  intros Hi Hv.
  destruct (nth_error coords i) as [r_i|] eqn:Hr;
    [|apply nth_error_None in Hr; lia].
  rewrite (@eval_get_particle_energy_valid self contract coords i r_i Hr)
    in Hv.
  destruct (omapM lj _) as [pot|e] eqn:Hpot; simpl in Hv; [|discriminate Hv].
  injection Hv as <-. apply omapM_lj_lower in Hpot.
  eapply Qcle_trans; [|exact Hpot]. apply Z2Qc_le.
  pose proof (select_length
                (remove_at i (minimum_image_distance (Geom self) r_i coords))
                (cutoff2 self)) as Hsel.
  rewrite remove_at_length in Hsel by (now rewrite contract).
  rewrite contract in Hsel. lia.
Qed.

(** Whenever they return a number, per-particle energy is at least
    [-(N - 1)], one well depth per other particle, and the total pair energy
    is at least [-N (N - 1) / 2], one per pair. *)
Theorem energies_bounded_below :
  let coords := coordinates (Geom self) in
  let N := Z.of_nat (length coords) in
  (forall i v, (i < length coords)%nat ->
     eval (get_particle_energy (Z.of_nat i) coords) self = Ok v ->
     Z2Qc (- (N - 1)) <= v) /\
  (forall v, eval calculate_total_pair_energy self = Ok v ->
     Z2Qc (N * - (N - 1)) / Z2Qc 2 <= v).
Proof.
  intros coords N. split.
  - intros i v. apply particle_energy_lower.
  - intros v. rewrite eval_calculate_total_pair_energy. fold coords.
    destruct (osum _) as [s|e] eqn:Hs; simpl; [|discriminate].
    rewrite (py_div_ok _ two_neq_0). intros H. injection H as <-.
    apply (@osum_lower _ _ (- (N - 1))%Z) in Hs.
    + rewrite length_seq in Hs. fold N in Hs. unfold Qcdiv.
      apply Qcmult_le_compat_r; [exact Hs|]. discriminate.
    + intros i w Hin. apply in_seq in Hin. apply particle_energy_lower. lia.
Qed.

End LowerBounds.

Lemma energies_bounded_below_witness :
  distance_contract (Geom energy_02) /\
  eval calculate_total_pair_energy energy_02 = Ok (Q2Qc (-63 # 1024)) /\
  Z2Qc (2 * - (2 - 1)) / Z2Qc 2 <= Q2Qc (-63 # 1024).
Proof.
  assert (Hc : distance_contract (Geom energy_02))
    by apply open_geometry_contract.
  assert (Hv : eval calculate_total_pair_energy energy_02
               = Ok (Q2Qc (-63 # 1024))) by by_evaluation.
  split; [exact Hc|]. split; [exact Hv|].
  exact (proj2 (@energies_bounded_below energy_02 Hc) _ Hv).
Defined.

(** ** A zero cutoff *)

(** An evaluator built with cutoff 0 selects no neighbour when the reported
    squared distances are nonnegative: every per-particle energy and the
    total are 0, coincident particles included. *)
Theorem zero_cutoff_no_interaction (g : Geometry) :
  distance_contract g ->
  (forall r j d,
     nth_error (minimum_image_distance g r (coordinates g)) j = Some d ->
     0 <= d) ->
  (forall i, (i < length (coordinates g))%nat ->
     obind (new_Energy g 0)
           (eval (get_particle_energy (Z.of_nat i) (coordinates g)))
     = Ok 0) /\
  obind (new_Energy g 0) (eval calculate_total_pair_energy) = Ok 0.
Proof.
  intros Hc Hpos. rewrite new_Energy_ok by reflexivity. simpl obind.
  set (self := mkEnergy g 0 (0 * 0)).
  assert (Hpe : forall i, (i < length (coordinates g))%nat ->
            eval (get_particle_energy (Z.of_nat i) (coordinates g)) self
            = Ok 0).
  { intros i Hi.
    destruct (nth_error (coordinates g) i) as [r_i|] eqn:Hr;
      [|apply nth_error_None in Hr; lia].
    rewrite (@eval_get_particle_energy_valid self Hc _ i r_i Hr).
    rewrite np_select_lt_remove_at_none; [reflexivity|].
    intros j Hj _. simpl. rewrite Qcmult_0_l.
    apply (Hpos r_i j). now apply nth_error_nth'. }
  split; [exact Hpe|].
  rewrite eval_calculate_total_pair_energy. simpl Geom.
  rewrite osum_zeros.
  - by_evaluation.
  - apply Forall_forall. intros o Ho. apply in_map_iff in Ho.
    destruct Ho as (i & <- & Hi). apply in_seq in Hi. apply Hpe. lia.
Qed.

Lemma sq_distance_nonneg (p q : point) : 0 <= sq_distance p q.
Proof.
  destruct p as [[px py] pz], q as [[qx qy] qz]. unfold sq_distance, sq.
  pose proof (Qcsquare_nonneg (px - qx)) as Hx.
  pose proof (Qcsquare_nonneg (py - qy)) as Hy.
  pose proof (Qcsquare_nonneg (pz - qz)) as Hz.
  generalize dependent ((px - qx) * (px - qx)).
  generalize dependent ((py - qy) * (py - qy)).
  generalize dependent ((pz - qz) * (pz - qz)).
  intros a Ha b Hb c Hc. to_Q. lra.
Qed.

Lemma zero_cutoff_no_interaction_witness :
  distance_contract (Geom energy_022) /\
  (forall r j d,
     nth_error (minimum_image_distance (Geom energy_022) r
                  (coordinates (Geom energy_022))) j = Some d ->
     0 <= d) /\
  obind (new_Energy (Geom energy_022) 0) (eval calculate_total_pair_energy)
  = Ok 0.
Proof.
  assert (Hc : distance_contract (Geom energy_022))
    by apply open_geometry_contract.
  assert (Hp : forall r j d,
     nth_error (minimum_image_distance (Geom energy_022) r
                  (coordinates (Geom energy_022))) j = Some d ->
     0 <= d).
  { intros r j d H. apply nth_error_In in H. simpl in H.
    destruct H as [<-|[<-|[<-|[]]]]; apply sq_distance_nonneg. }
  split; [exact Hc|]. split; [exact Hp|].
  exact (proj2 (@zero_cutoff_no_interaction (Geom energy_022) Hc Hp)).
Defined.

(** ** The object after construction *)

(** No method changes a field of the evaluator or the coordinates it holds,
    whether the call returns or raises: every state a sequence of calls
    reaches is the object the constructor returned, with the geometry and
    the cutoff it was given and the [cutoff ** 2] it computed then. *)
Theorem methods_leave_object_unchanged :
  (forall k self, exec (method k) self = self) /\
  (forall k self,
     coordinates (Geom (exec (method k) self)) = coordinates (Geom self)) /\
  (forall g c self,
     reachable g c self ->
     new_Energy g c = Ok self /\ Geom self = g /\ cutoff self = c /\
     py_pow c 2 = Ok (cutoff2 self)).
Proof.
  split; [exact method_read_only|]. split.
  - intros k self. now rewrite method_read_only.
  - intros g c self Hr. apply reachable_is_constructed in Hr.
    split; [exact Hr|]. rewrite new_Energy_run in Hr.
    destruct (py_pow c 2) as [c2|e]; simpl in Hr; [|discriminate Hr].
    injection Hr as <-. simpl. auto.
Qed.

Lemma methods_leave_object_unchanged_witness :
  reachable box_02 (Z2Qc 3)
    (exec (method call_calculate_total_pair_energy)
       (exec (method (call_get_particle_energy 7 pair_05)) energy_02)) /\
  new_Energy box_02 (Z2Qc 3)
  = Ok (exec (method call_calculate_total_pair_energy)
          (exec (method (call_get_particle_energy 7 pair_05)) energy_02)).
Proof.
  assert (H0 : new_Energy box_02 (Z2Qc 3) = Ok energy_02) by reflexivity.
  assert (Hr : reachable box_02 (Z2Qc 3)
    (exec (method call_calculate_total_pair_energy)
       (exec (method (call_get_particle_energy 7 pair_05)) energy_02))).
  { apply reachable_call, reachable_call, reachable_new, H0. }
  split; [exact Hr|].
  exact (proj1 (proj2 (proj2 methods_leave_object_unchanged) _ _ _ Hr)).
Defined.
